(** * streamcorpus-opensextant: the OpenSextant tagger stage

    A shallow embedding of [streamcorpus_opensextant/tagger.py] (Python 2):
    the static [entity_types] table with the type resolution written inline in
    [annotate_sentences], the alignment loop of [annotate_sentences] over the
    tokens of a stream item, and [OpenSextantTagger.process_item].

    Python values that come out of [json.loads] are modelled by [json];
    exceptions by [exn]; the mutable [Token] objects live in a store and are
    named by address, so that the in-place annotation of tokens shared between
    a sentence list and the sorted collection is visible. *)

From Stdlib Require Import ZArith String Ascii List Floats Lia.
From stdpp Require Import base option list gmap strings.

Local Open Scope Z_scope.

Set Warnings "-register-all".

(** ** Python values *)

(** A [unicode] object: its code points (a UCS-4 build of Python 2). *)
Definition ustring := list Z.

(** A [str] object: its bytes. *)
Definition bytes := list Byte.byte.

(** An ASCII [str] literal of the source read as [unicode]: Python 2 compares
    and hashes the two alike, so ['features'] finds the key [u'features']. *)
Definition u (s : string) : ustring :=
  map (fun c => Z.of_N (N_of_ascii c)) (list_ascii_of_string s).
Arguments u : simpl never.

(** The bytes of an ASCII [str] literal. *)
Definition b (s : string) : bytes := list_byte_of_string s.

(** What [json.loads] returns. An object is the [dict] built from it, as an
    association list read at its first entry for a key. *)
Inductive json : Type :=
  | JNull
  | JBool (v : bool)
  | JInt (z : Z)
  | JFloat (f : float)
  | JStr (s : ustring)
  | JArr (items : list json)
  | JObj (fields : list (ustring * json)).

Inductive exn : Type :=
  | KeyError (key : json)
  | AttributeError
  | TypeError
  | UnicodeDecodeError
  | RemoteFailure          (* whatever [session.post] or [json.loads] raised *)
  | InvalidAddress.        (* the model's own: a sentence names no stored token *)

Inductive outcome (A : Type) : Type :=
  | Ok (a : A)
  | Raise (e : exn).
Arguments Ok {A} a.
Arguments Raise {A} e.

(** [bool(v)]: [None], [False], zero, and the empty string, list and dict are
    false. *)
Definition truthy (v : json) : bool :=
  match v with
  | JNull => false
  | JBool v => v
  | JInt z => negb (z =? 0)
  | JFloat f => negb (PrimFloat.eqb f 0%float)
  | JStr s => negb (bool_decide (s = []))
  | JArr l => match l with [] => false | _ => true end
  | JObj l => match l with [] => false | _ => true end
  end.

Fixpoint assoc {V : Type} (k : ustring) (l : list (ustring * V)) : option V :=
  match l with
  | [] => None
  | (k', v) :: l' => if bool_decide (k' = k) then Some v else assoc k l'
  end.

(** [d.get(key, default)]: only a dict has the method. *)
Definition py_get (d : json) (key : ustring) (default : json) : outcome json :=
  match d with
  | JObj fields => Ok (from_option id default (assoc key fields))
  | _ => Raise AttributeError
  end.

(** [d[key]] on a dict. On the other values the source never subscripts with
    a string key successfully: a list or a string raises [TypeError]. *)
Definition py_getitem (d : json) (key : ustring) : outcome json :=
  match d with
  | JObj fields =>
      match assoc key fields with
      | Some v => Ok v
      | None => Raise (KeyError (JStr key))
      end
  | _ => Raise TypeError
  end.

(** [for x in v]: a list yields its items, a dict its keys, a string its
    characters; nothing else iterates. *)
Definition py_iter (v : json) : outcome (list json) :=
  match v with
  | JArr items => Ok items
  | JObj fields => Ok (map (fun kv => JStr (fst kv)) fields)
  | JStr s => Ok (map (fun c => JStr [c]) s)
  | _ => Raise TypeError
  end.

(** An integer operand: [bool] is a subclass of [int]. *)
Definition py_int (v : json) : option Z :=
  match v with
  | JInt z => Some z
  | JBool v => Some (if v then 1 else 0)
  | _ => None
  end.

(** [v + k] ([v - k] with k negative) for an integer literal [k], as far as the
    source meets it: [None], strings, lists and dicts raise [TypeError]; a
    float stays a float. *)
Definition py_add_int (v : json) (k : Z) : outcome json :=
  match v with
  | JInt z => Ok (JInt (z + k))
  | JBool v => Ok (JInt ((if v then 1 else 0) + k))
  | JFloat f =>
      let d := PrimFloat.of_uint63 (Uint63.of_Z (Z.abs k)) in
      Ok (JFloat (if k <? 0 then PrimFloat.sub f d else PrimFloat.add f d))
  | _ => Raise TypeError
  end.

(** A slice bound: an integer or [None]. *)
Definition py_index (v : json) : outcome (option Z) :=
  match v with
  | JNull => Ok None
  | _ => match py_int v with
         | Some z => Ok (Some z)
         | None => Raise TypeError
         end
  end.

(** Where a slice bound lands in a sequence of length [n]: a negative bound
    counts from the end, and both ends are clamped. *)
Definition clamp (n : Z) (bound : option Z) (default : Z) : Z :=
  match bound with
  | None => default
  | Some i => let i := if i <? 0 then i + n else i in Z.max 0 (Z.min n i)
  end.

(** The characters of [s] from [lo] to [hi], as a slice takes them. *)
Definition slice (s : ustring) (lo hi : option Z) : ustring :=
  let n := Z.of_nat (length s) in
  let i := clamp n lo 0 in
  let j := clamp n hi n in
  take (Z.to_nat (j - i)) (drop (Z.to_nat i) s).

(** [s[lo:hi]] on a unicode string. *)
Definition py_slice (s : ustring) (lo hi : json) : outcome ustring :=
  match py_index lo with
  | Raise e => Raise e
  | Ok lo =>
      match py_index hi with
      | Raise e => Raise e
      | Ok hi => Ok (slice s lo hi)
      end
  end.

(** [text == v] for a unicode [text]: only a string can be equal to it. *)
Definition unicode_eq (text : ustring) (v : json) : bool :=
  match v with
  | JStr s => bool_decide (text = s)
  | _ => false
  end.

(** [s.split('.')] with a one-character separator: always at least one part. *)
Fixpoint split_on (sep : Z) (s : ustring) : list ustring :=
  match s with
  | [] => [[]]
  | c :: s' =>
      if c =? sep then [] :: split_on sep s'
      else match split_on sep s' with
           | [] => [[c]]
           | p :: ps => (c :: p) :: ps
           end
  end.

(** ** [str.decode('utf8')] *)

Definition byte_val (x : Byte.byte) : Z := Z.of_N (Byte.to_N x).

Definition is_cont (x : Z) : bool := (128 <=? x) && (x <=? 191).

(** The decoder of Python 2.7: lead bytes C2..DF, E0..EF, F0..F4 open sequences
    of two, three and four bytes; overlong forms and code points above
    U+10FFFF are refused. *)
Fixpoint utf8_decode (bs : bytes) : option ustring :=
  match bs with
  | [] => Some []
  | x0 :: r0 =>
      let c0 := byte_val x0 in
      if c0 <? 128 then cons c0 <$> utf8_decode r0
      else if (194 <=? c0) && (c0 <=? 223) then
        match r0 with
        | x1 :: r1 =>
            let c1 := byte_val x1 in
            if is_cont c1
            then cons ((c0 - 192) * 64 + (c1 - 128)) <$> utf8_decode r1
            else None
        | _ => None
        end
      else if (224 <=? c0) && (c0 <=? 239) then
        match r0 with
        | x1 :: x2 :: r2 =>
            let c1 := byte_val x1 in
            let c2 := byte_val x2 in
            if is_cont c1 && is_cont c2 && negb ((c0 =? 224) && (c1 <? 160))
            then cons ((c0 - 224) * 4096 + (c1 - 128) * 64 + (c2 - 128))
                   <$> utf8_decode r2
            else None
        | _ => None
        end
      else if (240 <=? c0) && (c0 <=? 244) then
        match r0 with
        | x1 :: x2 :: x3 :: r3 =>
            let c1 := byte_val x1 in
            let c2 := byte_val x2 in
            let c3 := byte_val x3 in
            if is_cont c1 && is_cont c2 && is_cont c3
               && negb ((c0 =? 240) && (c1 <? 144))
               && negb ((c0 =? 244) && (143 <? c1))
            then cons ((c0 - 240) * 262144 + (c1 - 128) * 4096
                       + (c2 - 128) * 64 + (c3 - 128))
                   <$> utf8_decode r3
            else None
        | _ => None
        end
      else None
  end.

Definition py_decode_utf8 (s : option bytes) : outcome ustring :=
  match s with
  | None => Raise AttributeError
  | Some bs =>
      match utf8_decode bs with
      | Some text => Ok text
      | None => Raise UnicodeDecodeError
      end
  end.

(** ** The type table *)

Inductive EntityType : Type := PER | ORG | LOC | FAC | EVENT.
Inductive MentionType : Type := NAME | PRO | NOM.

#[global] Instance EntityType_eq_dec : EqDecision EntityType.
Proof. solve_decision. Defined.
#[global] Instance MentionType_eq_dec : EqDecision MentionType.
Proof. solve_decision. Defined.

(** The dict literal [entity_types]: a key is mapped to a pair or to [None]. *)
Definition entity_types : list (ustring * option (EntityType * MentionType)) :=
  [ (u "Action", Some (EVENT, NOM));
    (u "Attribute.attribute.measurableCharacteristic", None);
    (u "Attribute.weight", None);
    (u "Geo.area", Some (LOC, NOM));
    (u "Geo.distance", Some (LOC, NOM));
    (u "Geo.weather", Some (LOC, NOM));
    (u "Geo.featureType.AdminRegion", Some (LOC, NAME));
    (u "Geo.featureType.Area", Some (LOC, NAME));
    (u "Geo.featureType.Hydro", Some (LOC, NAME));
    (u "Geo.featureType.Hypso", Some (LOC, NAME));
    (u "Geo.featureType.Misc", Some (LOC, NAME));
    (u "Geo.featureType.PopulatedPlace", Some (LOC, NAME));
    (u "Geo.featureType.Street", Some (LOC, NAME));
    (u "Geo.featureType.Undersea", Some (LOC, NAME));
    (u "Geo.featureType.Vegetation", Some (LOC, NAME));
    (u "Geo.place.geocoordinate", Some (LOC, NAME));
    (u "Geo.place.namedPlace", Some (LOC, NAME));
    (u "Geo.featureType.SpotFeature", Some (FAC, NAME));
    (u "Geo.facilityComponents", Some (FAC, NAME));
    (u "Idea", None);
    (u "Information", None);
    (u "Object", None);
    (u "Organization", Some (ORG, NAME));
    (u "Person", Some (PER, NAME));
    (u "Person.attitude.emotion", None);
    (u "Person.attitude.emotion.negativeEmotion", None);
    (u "Person.attitude.emotion.positiveEmotion", None);
    (u "Person.bodyPart", None);
    (u "Person.ethnicity", None);
    (u "Person.health", None);
    (u "Person.health.disease", None);
    (u "Person.health.injury", None);
    (u "Person.jobOrRole", None);
    (u "Person.language", None);
    (u "Person.name.personName", Some (PER, NAME));
    (u "Person.name.title.corporateTitle", Some (PER, NOM));
    (u "Person.name.title.governmentTitle", Some (PER, NOM));
    (u "Person.name.title.hereditaryTitle", Some (PER, NOM));
    (u "Person.name.title.militaryTitle", Some (PER, NOM));
    (u "Person.name.title.personalTitle", Some (PER, NOM));
    (u "Person.name.title.religiousTitle", Some (PER, NOM));
    (u "Person.relative", None);
    (u "Substance", None);
    (u "Time", None) ].

(** [entity_types.get(key)]: [None] for a key that is absent, and the stored
    [None] for a key mapped to it. *)
Definition entity_types_get (key : ustring) : option (EntityType * MentionType) :=
  from_option id None (assoc key entity_types).

(** Lines 213-218 of the source: [if entity_types.get(fhierarchy)] tests the
    value [get] returns for truth, and a pair is true, [None] is not. *)
Definition resolve_types (fhierarchy : ustring) (fh_parts : list ustring)
  : option EntityType * option MentionType :=
  match entity_types_get fhierarchy with
  | Some (e_type, m_type) => (Some e_type, Some m_type)
  | None =>
      match entity_types_get (hd [] fh_parts) with
      | Some (e_type, m_type) => (Some e_type, Some m_type)
      | None => (None, None)
      end
  end.

(** The resolution of a category string, as the loop body computes it. *)
Definition resolve (category : ustring) : option (EntityType * MentionType) :=
  match resolve_types category (split_on 46 category) with
  | (Some e_type, Some m_type) => Some (e_type, m_type)
  | _ => None
  end.

(** The lookup order the table's layout intends: an entry for the full string
    decides, also when it is [None]; the first segment is consulted only when
    the full string has no entry. *)
Definition resolve_by_entry (category : ustring) : option (EntityType * MentionType) :=
  match assoc category entity_types with
  | Some entry => entry
  | None => from_option id None (assoc (hd [] (split_on 46 category)) entity_types)
  end.

(** ** Tokens, sentences and the stream item *)

Inductive OffsetType : Type := LINES | BYTES | CHARS.

#[global] Instance OffsetType_eq_dec : EqDecision OffsetType.
Proof. solve_decision. Defined.

(** The integer Thrift gives an [OffsetType] (the key of a [KeyError]). *)
Definition OffsetType_value (t : OffsetType) : Z :=
  match t with LINES => 0 | BYTES => 1 | CHARS => 2 end.

Module Offset.
Record t : Type := { first : Z; length : Z }.
End Offset.

(** A [streamcorpus.Token]: its text and offsets, and the four fields the
    tagger writes. *)
Record Token : Type := {
  token : bytes;
  offsets : list (OffsetType * Offset.t);
  entity_type : option EntityType;
  mention_type : option MentionType;
  mention_id : option Z;
  equiv_id : option Z
}.

(** The address of a [Token] object in the store. *)
Abbreviation addr := nat (only parsing).

Record Sentence : Type := { tokens : list addr }.

Record Tagging : Type := {
  tagger_id : string;
  tagger_version : string;
  generation_time : Z
}.

(** [si.body]: the values of [sentences] are sentence lists, or [None] once
    one has been assigned. *)
Record ContentItem : Type := {
  clean_visible : option bytes;
  taggings : gmap string Tagging;
  sentences : gmap string (option (list Sentence))
}.

Record StreamItem : Type := { body : option ContentItem }.

(** ** State and exceptions *)

Inductive level : Type := DEBUG | INFO | CRITICAL.

(** A call of the logger: its level and the values formatted into the
    message. *)
Definition log_record : Type := level * list json.

Record state : Type := { heap : list Token; log : list log_record }.

(** A statement: it runs on a state, leaves a state, and ends normally or in
    an exception; what was written before an exception stays written. *)
Definition M (A : Type) : Type := state -> state * outcome A.

Definition ret {A : Type} (a : A) : M A := fun st => (st, Ok a).

Definition bind {A B : Type} (m : M A) (k : A -> M B) : M B :=
  fun st =>
    match m st with
    | (st', Ok a) => k a st'
    | (st', Raise e) => (st', Raise e)
    end.

Definition lift {A : Type} (o : outcome A) : M A := fun st => (st, o).

Declare Scope py_scope.
Delimit Scope py_scope with py.
Notation "'let*' x ':=' m 'in' k" := (bind m (fun x => k))
  (at level 10, x pattern, m at level 100, k at level 200) : py_scope.
Notation "m ';;' k" := (bind m (fun _ => k))
  (at level 100, k at level 200, right associativity) : py_scope.
Local Open Scope py_scope.

Definition logger (lvl : level) (args : list json) : M unit :=
  fun st => ({| heap := heap st; log := log st ++ [(lvl, args)] |}, Ok tt).

Definition read_token (a : addr) : M Token :=
  fun st =>
    match heap st !! a with
    | Some tok => (st, Ok tok)
    | None => (st, Raise InvalidAddress)
    end.

Definition update_token (a : addr) (f : Token -> Token) : M unit :=
  fun st => ({| heap := alter f a (heap st); log := log st |}, Ok tt).

(** A [for] loop whose body only acts on the state. *)
Fixpoint for_each {A : Type} (items : list A) (body : A -> M unit) : M unit :=
  match items with
  | [] => ret tt
  | x :: items' => body x;; for_each items' body
  end.

(** ** The sorted collection *)

(** [tok.offsets[OffsetType.BYTES].first], the key of the collection. *)
Definition token_key (tok : Token) : outcome Z :=
  match list_find (fun p => fst p = BYTES) (offsets tok) with
  | Some (_, (_, off)) => Ok (Offset.first off)
  | None => Raise (KeyError (JInt (OffsetType_value BYTES)))
  end.

(** [itertools.chain] over the [tokens] of every sentence, in order. *)
Definition chain (sents : list Sentence) : list addr :=
  concat (map tokens sents).

(** The items handed to [SortedCollection], each with its key, in the order
    of iteration; the keys are computed once, when the collection is built.
    How the collection orders the items is left to its range query. *)
Definition SortedCollection : Type := list (Z * addr).

Fixpoint keyed (items : list addr) : M SortedCollection :=
  match items with
  | [] => ret []
  | a :: items' =>
      let* tok := read_token a in
      let* k := lift (token_key tok) in
      let* rest := keyed items' in
      ret ((k, a) :: rest)
  end.

(** Lines 220-226: the four assignments to a token. *)
Definition set_annotation (e_type : EntityType) (m_type : option MentionType)
    (mention : Z) (tok : Token) : Token :=
  {| token := token tok;
     offsets := offsets tok;
     entity_type := Some e_type;
     mention_type := m_type;
     mention_id := Some mention;
     equiv_id := Some mention |}.

(** Lines 211-218: the pair the body of the token loop computes from the
    annotation. *)
Definition lookup_types (anno : json) : outcome (option EntityType * option MentionType) :=
  match py_getitem anno (u "features") with
  | Raise e => Raise e
  | Ok features =>
      match py_getitem features (u "hierarchy") with
      | Raise e => Raise e
      | Ok fhierarchy =>
          match fhierarchy with
          | JStr h =>
              let fh_parts := split_on 46 h in
              Ok (resolve_types h fh_parts)
          | _ => Raise AttributeError    (* only a string has [split] *)
          end
      end
  end.

(** Lines 205-208: the text between the offsets is compared with
    [matchText], and a difference is logged with the slice of the text from
    [start - 3] to [end + 3]. *)
Definition check_alignment (text : option bytes) (anno start end_ : json) : M unit :=
  let* decoded := lift (py_decode_utf8 text) in
  let* found := lift (py_slice decoded start end_) in
  let* match_text := lift (py_getitem anno (u "matchText")) in
  if negb (unicode_eq found match_text) then
    let* decoded := lift (py_decode_utf8 text) in
    let* lo := lift (py_add_int start (-3)) in
    let* hi := lift (py_add_int end_ 3) in
    let* window := lift (py_slice decoded lo hi) in
    let* match_text := lift (py_getitem anno (u "matchText")) in
    logger CRITICAL [JStr window; match_text]
  else ret tt.

Section Aligner.

(** [SortedCollection.find_range] comes from the [sortedcollection] package,
    which is not part of this repository: the alignment is stated over any
    range query that is given the keyed items and the two bounds and returns
    items of the collection. *)
Variable find_range : SortedCollection -> json -> json -> list addr.

(** The body of [for tok in toks.find_range(start, end)]. *)
Definition annotate_token (anno : json) (mention : Z) (tok : addr) : M unit :=
  let* types := lift (lookup_types anno) in
  match types with
  | (Some e_type, m_type) => update_token tok (set_annotation e_type m_type mention)
  | (None, _) => ret tt
  end.

(** The body of [for anno in ...]: the new value of [mention_id]. A
    [continue] leaves it as it was. *)
Definition anno_step (text : option bytes) (toks : SortedCollection)
    (mention : Z) (anno : json) : M Z :=
  let* features := lift (py_get anno (u "features") (JObj [])) in
  let* is_entity := lift (py_get features (u "isEntity") JNull) in
  if negb (truthy is_entity) then
    logger DEBUG [anno];;
    ret mention
  else
    let* start := lift (py_getitem anno (u "start")) in
    let* end_ := lift (py_getitem anno (u "end")) in
    check_alignment text anno start end_;;
    for_each (find_range toks start end_) (annotate_token anno mention);;
    ret (mention + 1).

Fixpoint anno_loop (text : option bytes) (toks : SortedCollection)
    (annos : list json) (mention : Z) : M Z :=
  match annos with
  | [] => ret mention
  | anno :: annos' =>
      let* mention' := anno_step text toks mention anno in
      anno_loop text toks annos' mention'
  end.

(** [annotate_sentences(si, result)]. The function has no [return]
    statement: a call that ends normally yields [None]. *)
Definition annotate_sentences (si : StreamItem) (result : json)
  : M (option (list Sentence)) :=
  logger INFO [result];;
  let* body := lift (match body si with
                     | Some c => Ok c
                     | None => Raise AttributeError
                     end) in
  let* entry := lift (match sentences body !! "nltk_tokenizer"%string with
                      | Some v => Ok v
                      | None => Raise (KeyError (JStr (u "nltk_tokenizer")))
                      end) in
  let* sents := lift (match entry with
                      | Some l => Ok l
                      | None => Raise TypeError
                      end) in
  let* toks := keyed (chain sents) in
  let* anno_list := lift (py_get result (u "annoList") (JArr [])) in
  let* annos := lift (py_iter anno_list) in
  anno_loop (clean_visible body) toks annos 0;;
  ret None.

(** ** The stage *)

Definition the_tagger_id : string := "opensextant".

(** [make_tagging]: the clock is read by the caller. *)
Definition make_tagging (now : Z) (result : json) : Tagging :=
  {| tagger_id := the_tagger_id; tagger_version := "2.1"; generation_time := now |}.

(** [bool(si.body.clean_visible)]. *)
Definition has_text (c : ContentItem) : bool :=
  match clean_visible c with
  | Some (_ :: _) => true
  | _ => false
  end.

(** [process_item(si)]: [remote] stands for the POST of the text and
    [json.loads] of the answer. The stream item is changed in place, so it is
    returned beside the state also when an exception ends the call. *)
Definition process_item (remote : bytes -> outcome json) (now : Z)
    (si : StreamItem) (st : state) : StreamItem * state * outcome unit :=
  match body si with
  | Some c =>
      if has_text c then
        let text := default [] (clean_visible c) in
        let st1 := fst (logger DEBUG [JInt (Z.of_nat (length text))] st) in
        match remote text with
        | Raise e => (si, st1, Raise e)
        | Ok result =>
            let c1 := {| clean_visible := clean_visible c;
                         taggings := <[the_tagger_id := make_tagging now result]> (taggings c);
                         sentences := sentences c |} in
            let si1 := {| body := Some c1 |} in
            match annotate_sentences si1 result st1 with
            | (st2, Raise e) => (si1, st2, Raise e)
            | (st2, Ok v) =>
                let c2 := {| clean_visible := clean_visible c1;
                             taggings := taggings c1;
                             sentences := <[the_tagger_id := v]> (sentences c1) |} in
                ({| body := Some c2 |}, st2, Ok tt)
            end
        end
      else (si, st, Ok tt)
  | None => (si, st, Ok tt)
  end.

End Aligner.

(** ** A range query over the keys

    A collection sorted by key answers a range query by two binary searches.
    This instance selects the items whose key [k] satisfies
    [start <= k < end]; it serves as the concrete query of the examples
    below. Only [None], booleans and integers reach [find_range] as bounds
    (anything else has failed the slice before), and Python 2 orders [None]
    below every integer. *)

(** [k < bound]. *)
Definition key_lt (k : Z) (bound : json) : bool :=
  match bound with
  | JNull => false
  | _ => match py_int bound with
         | Some z => k <? z
         | None => true
         end
  end.

Fixpoint insert_by_key (x : Z * addr) (l : SortedCollection) : SortedCollection :=
  match l with
  | [] => [x]
  | y :: l' => if fst x <=? fst y then x :: l else y :: insert_by_key x l'
  end.

(** A stable sort on the keys. *)
Definition sort_by_key (l : SortedCollection) : SortedCollection :=
  foldr insert_by_key [] l.

(** [bisect_left(keys, bound)] on sorted keys: how many keys lie below. *)
Fixpoint bisect_left (l : SortedCollection) (bound : json) : nat :=
  match l with
  | [] => 0%nat
  | y :: l' => if key_lt (fst y) bound then S (bisect_left l' bound) else 0%nat
  end.

Definition range_by_key (toks : SortedCollection) (start end_ : json) : list addr :=
  let sorted := sort_by_key toks in
  let i := bisect_left sorted start in
  let j := bisect_left sorted end_ in
  map snd (take (j - i) (drop i sorted)).

(** ** The first document of the test suite *)

(** A token as the tokenizer leaves it: text and byte offsets, nothing else. *)
Definition mk_token (text : string) (start len : Z) : Token :=
  {| token := b text;
     offsets := [(BYTES, {| Offset.first := start; Offset.length := len |})];
     entity_type := None;
     mention_type := None;
     mention_id := None;
     equiv_id := None |}.

(** An annotation record of the remote service. *)
Definition mk_anno (start end_ : Z) (text : string) (is_entity : bool)
    (hierarchy : string) : json :=
  JObj [ (u "start", JInt start);
         (u "end", JInt end_);
         (u "matchText", JStr (u text));
         (u "features", JObj [ (u "isEntity", JBool is_entity);
                               (u "hierarchy", JStr (u hierarchy)) ]) ].

(** A body with [text] as clean visible text and one tokenized sentence over
    the tokens at addresses [0 .. n-1], and the stream item that has it. *)
Definition mk_body (text : string) (n : nat) : ContentItem :=
  {| clean_visible := Some (b text);
     taggings := ∅;
     sentences := {[ "nltk_tokenizer"%string := Some [ {| tokens := seq 0 n |} ] ]} |}.

Definition mk_item (text : string) (n : nat) : StreamItem :=
  {| body := Some (mk_body text n) |}.

Definition mk_state (toks : list Token) : state := {| heap := toks; log := [] |}.

Definition paris_texas_tokens : list Token :=
  [ mk_token "Traveling" 0 9; mk_token "to" 10 2;
    mk_token "Paris," 13 6; mk_token "Texas." 20 6 ].

Definition paris_texas_item : StreamItem := mk_item "Traveling to Paris, Texas." 4.

Definition paris_texas_result : json :=
  JObj [ (u "annoList",
          JArr [ mk_anno 13 18 "Paris" true "Geo.featureType.PopulatedPlace";
                 mk_anno 20 25 "Texas" true "Geo.featureType.PopulatedPlace" ]) ].

(** The annotation fields of the tokens of a store, in order. *)
Definition annotation (tok : Token)
  : option EntityType * option MentionType * option Z * option Z :=
  (entity_type tok, mention_type tok, mention_id tok, equiv_id tok).

(** ** What an annotation record asks for *)

(** The test of line 199 passes: the record has a truthy [isEntity]. *)
Definition anno_is_entity (anno : json) : bool :=
  match py_get anno (u "features") (JObj []) with
  | Ok features =>
      match py_get features (u "isEntity") JNull with
      | Ok v => truthy v
      | Raise _ => false
      end
  | Raise _ => false
  end.

(** [anno['start']] and [anno['end']], when the record has both. *)
Definition anno_range (anno : json) : option (json * json) :=
  match py_getitem anno (u "start"), py_getitem anno (u "end") with
  | Ok start, Ok end_ => Some (start, end_)
  | _, _ => None
  end.

(** The entity kind, with its mention kind, that the token loop writes for
    the record; [None] when it writes nothing. *)
Definition anno_entity (anno : json) : option (EntityType * option MentionType) :=
  match lookup_types anno with
  | Ok (Some e_type, m_type) => Some (e_type, m_type)
  | _ => None
  end.

(** The store after the token loop of one record has run over [targets]. *)
Definition write_all (entity : option (EntityType * option MentionType))
    (mention : Z) (targets : list addr) (h : list Token) : list Token :=
  match entity with
  | Some (e_type, m_type) =>
      foldl (fun h a => alter (set_annotation e_type m_type mention) a h) h targets
  | None => h
  end.

(** What the tagger never writes. *)
Definition identity (tok : Token) : bytes * list (OffsetType * Offset.t) :=
  (token tok, offsets tok).

(** ** What the statements speak of *)

(** The value of [mention_id] when the record at position [j] is reached. *)
Definition mention_at (annos : list json) (j : nat) : Z :=
  Z.of_nat (length (filter (fun anno => anno_is_entity anno = true) (take j annos))).

(** The keys of the collection are read from the store and nothing is
    written. *)
Definition keys_of (h : list Token) (items : list addr) : outcome SortedCollection :=
  snd (keyed items {| heap := h; log := [] |}).

(** What [annotate_sentences] has in hand when it enters its loop: the text,
    the collection and the annotation list; or the exception that ends the
    call before. *)
Definition prelude (si : StreamItem) (result : json) (h : list Token)
  : outcome (option bytes * SortedCollection * list json) :=
  match body si with
  | None => Raise AttributeError
  | Some c =>
      match sentences c !! "nltk_tokenizer"%string with
      | None => Raise (KeyError (JStr (u "nltk_tokenizer")))
      | Some None => Raise TypeError
      | Some (Some sents) =>
          match keys_of h (chain sents) with
          | Raise e => Raise e
          | Ok toks =>
              match py_get result (u "annoList") (JArr []) with
              | Raise e => Raise e
              | Ok anno_list =>
                  match py_iter anno_list with
                  | Raise e => Raise e
                  | Ok annos => Ok (clean_visible c, toks, annos)
                  end
              end
          end
      end
  end.

(** The collection the call builds over a store, and the records it
    iterates over: both empty when the call ends before its loop. *)
Definition collection (si : StreamItem) (h : list Token) : SortedCollection :=
  match body si with
  | Some c =>
      match sentences c !! "nltk_tokenizer"%string with
      | Some (Some sents) =>
          match keys_of h (chain sents) with
          | Ok toks => toks
          | Raise _ => []
          end
      | _ => []
      end
  | None => []
  end.

Definition annotations (result : json) : list json :=
  match py_get result (u "annoList") (JArr []) with
  | Ok anno_list =>
      match py_iter anno_list with
      | Ok annos => annos
      | Raise _ => []
      end
  | Raise _ => []
  end.


(** [anno['features']['hierarchy']], when it is a string. *)
Definition anno_category (anno : json) : option ustring :=
  match py_getitem anno (u "features") with
  | Ok features =>
      match py_getitem features (u "hierarchy") with
      | Ok (JStr h) => Some h
      | _ => None
      end
  | Raise _ => None
  end.

(** The record carries no truthy [isEntity]: it has no ['features'], or its
    ['features'] object lacks ['isEntity'] or holds a false value there. *)
Definition lacks_entity_flag (anno : json) : bool :=
  match anno with
  | JObj fields =>
      match assoc (u "features") fields with
      | None => true
      | Some (JObj ffields) =>
          match assoc (u "isEntity") ffields with
          | None => true
          | Some v => negb (truthy v)
          end
      | Some _ => false
      end
  | _ => false
  end.

(** The token at [a] carries an entity kind. *)
Definition is_annotated (h : list Token) (a : addr) : bool :=
  match h !! a with
  | Some tok => match entity_type tok with Some _ => true | None => false end
  | None => false
  end.

(** The byte span of the token meets the bytes from [start] to [end_]. *)
Definition span_intersects (tok : Token) (start end_ : Z) : bool :=
  match list_find (fun p => fst p = BYTES) (offsets tok) with
  | Some (_, (_, off)) =>
      (Offset.first off <? end_) && (start <? Offset.first off + Offset.length off)
  | None => false
  end.

Section Selection.

Variable find_range : SortedCollection -> json -> json -> list addr.

(** The store one record leaves, from the way its step ended. *)
Definition step_heap (toks : SortedCollection) (mention : Z) (anno : json)
    (r : outcome Z) (h : list Token) : list Token :=
  match r with
  | Ok _ =>
      if anno_is_entity anno then
        match anno_range anno with
        | Some (start, end_) =>
            write_all (anno_entity anno) mention (find_range toks start end_) h
        | None => h
        end
      else h
  | Raise _ => h
  end.

(** The record writes to the token at [a]: it passed the [isEntity] test, it
    has both offsets and a category that resolves, and the range query
    returns [a]. *)
Definition annotates (toks : SortedCollection) (anno : json) (a : addr) : bool :=
  anno_is_entity anno &&
  match anno_range anno, anno_entity anno with
  | Some (start, end_), Some _ => bool_decide (a ∈ find_range toks start end_)
  | _, _ => false
  end.


End Selection.

(** The claim C5 on a document with one record over [start, end_): after the
    call, the tokens that carry an entity kind are those whose span meets
    the record's. *)
Definition annotates_by_span (find_range : SortedCollection -> json -> json -> list addr)
    (si : StreamItem) (result : json) (toks : list Token) (start end_ : Z) : Prop :=
  forall a tok,
    toks !! a = Some tok ->
    is_annotated (heap (fst (annotate_sentences find_range si result (mk_state toks)))) a
    = span_intersects tok start end_.

(** ** Documents for the counterexamples and the instances *)

Definition gun_smith_tokens : list Token :=
  [ mk_token "gun" 0 3; mk_token "Smith" 4 5 ].

Definition gun_smith_item : StreamItem := mk_item "gun Smith" 2.

(** A record of category ['Object'], which resolves to [None], before a
    record of a person name. *)
Definition gun_smith_result : json :=
  JObj [ (u "annoList",
          JArr [ mk_anno 0 3 "gun" true "Object";
                 mk_anno 4 9 "Smith" true "Person.name.personName" ]) ].

(** The first record of the first test document without its ['start']. *)
Definition no_start_anno : json :=
  JObj [ (u "end", JInt 18);
         (u "matchText", JStr (u "Paris"));
         (u "features", JObj [ (u "isEntity", JBool true);
                               (u "hierarchy", JStr (u "Geo.featureType.PopulatedPlace")) ]) ].

Definition no_start_result : json :=
  JObj [ (u "annoList",
          JArr [ no_start_anno;
                 mk_anno 20 25 "Texas" true "Geo.featureType.PopulatedPlace" ]) ].

(** Two documents with one token each, both starting at byte 0: a short
    token that ends before byte 5, and a long one that runs to byte 10. *)
Definition short_token : list Token := [ mk_token "abc" 0 3 ].

Definition short_token_item : StreamItem := mk_item "abc  fghij" 1.

Definition long_token : list Token := [ mk_token "abcdefghij" 0 10 ].

Definition long_token_item : StreamItem := mk_item "abcdefghij" 1.

(** One record over the bytes 5 to 10 of either document. *)
Definition tail_result : json :=
  JObj [ (u "annoList", JArr [ mk_anno 5 10 "fghij" true "Person" ]) ].

(** The collection of the first test document. *)
Definition paris_texas_toks : SortedCollection :=
  [ (0, 0%nat); (10, 1%nat); (13, 2%nat); (20, 3%nat) ].

Definition paris_anno : json := mk_anno 13 18 "Paris" true "Geo.featureType.PopulatedPlace".

(** The record of ['Paris'] with a [matchText] in another case. *)
Definition paris_mismatch_anno : json :=
  mk_anno 13 18 "paris" true "Geo.featureType.PopulatedPlace".

(** A record at the beginning of the text, with a [matchText] in another
    case. *)
Definition traveling_mismatch_anno : json :=
  mk_anno 0 9 "TRAVELING" true "Geo.featureType.PopulatedPlace".

(** A record without ['features']. *)
Definition bare_anno : json :=
  JObj [ (u "start", JInt 13); (u "end", JInt 18); (u "matchText", JStr (u "Paris")) ].

(** * Further definitions *)

(** ** The constructor of the stage *)

(** [OpenSextantTagger.default_config]. *)
Definition default_config : json :=
  JObj [ (u "scheme", JStr (u "http"));
         (u "network_address", JStr (u "localhost:8182"));
         (u "service_path", JStr (u "/opensextant/extract/general/json"));
         (u "verify_ssl", JBool false);
         (u "username", JNull);
         (u "password", JNull);
         (u "cert", JNull) ].

(** What [__init__] can end in: an exception of the kinds above, or the
    [NameError] of a global name that the module never binds. *)
Inductive init_outcome (A : Type) : Type :=
  | Built (a : A)
  | Failed (e : exn)
  | NameError (name : string).
Arguments Built {A} a.
Arguments Failed {A} e.
Arguments NameError {A} name.

(** [session.cert]: the tuple made of a list, or the configured value. *)
Inductive cert_value : Type :=
  | CertTuple (items : list json)
  | CertValue (v : json).

(** The attributes [__init__] sets: on the tagger, and on its
    [requests.Session]. *)
Record Tagger : Type := {
  rest_url : ustring;
  verify_ssl : json;
  session_auth : option (json * json);
  session_cert : option cert_value
}.

(** [a + b] where one operand is known to be a string: any other partner
    raises [TypeError]. *)
Definition py_concat (a b : json) : outcome json :=
  match a, b with
  | JStr s, JStr t => Ok (JStr (s ++ t))
  | _, _ => Raise TypeError
  end.

(** [__init__(config)], after the call of the base class constructor (which
    is not part of this repository and is taken to return): lines 114-131.
    [HTTPBasicAuth] is not imported by the module, so its evaluation on line
    125 raises [NameError]. *)
Definition init (config : json) : init_outcome Tagger :=
  match py_getitem config (u "scheme") with
  | Raise e => Failed e
  | Ok scheme =>
  match py_concat scheme (JStr (u "://")) with
  | Raise e => Failed e
  | Ok url1 =>
  match py_getitem config (u "network_address") with
  | Raise e => Failed e
  | Ok address =>
  match py_concat url1 address with
  | Raise e => Failed e
  | Ok url2 =>
  match py_getitem config (u "service_path") with
  | Raise e => Failed e
  | Ok path =>
  match py_concat url2 path with
  | Raise e => Failed e
  | Ok (JStr url) =>
  match py_getitem config (u "verify_ssl") with
  | Raise e => Failed e
  | Ok verify =>
  match py_get config (u "username") JNull with
  | Raise e => Failed e
  | Ok username =>
  match py_get config (u "password") JNull with
  | Raise e => Failed e
  | Ok password =>
      if truthy username && truthy password then NameError "HTTPBasicAuth"
      else
        match py_get config (u "cert") JNull with
        | Raise e => Failed e
        | Ok cert =>
            Built {| rest_url := url;
                     verify_ssl := verify;
                     session_auth := None;
                     session_cert :=
                       if truthy cert then
                         Some (match cert with
                               | JArr items => CertTuple items
                               | _ => CertValue cert
                               end)
                       else None |}
        end
  end end end
  | Ok _ => Failed TypeError
  end end end end end end.


(** ** The category tables *)

(** The keys of the dict literal [entity_hierarchy], in the order written (a
    key written twice is one key of the dict); every value is [None]. *)
Definition entity_hierarchy : list ustring :=
  [ u "Action.event";
    u "Action.event.crime";
    u "Action.event.disaster";
    u "Action.event.legalEvent";
    u "Action.event.meetingEvent";
    u "Action.event.militaryEvent";
    u "Action.event.movement";
    u "Action.event.politicalEvent";
    u "Action.event.socialEvent";
    u "Action.event.violentEvent";
    u "Attribute.attribute.measurableCharacteristic";
    u "Attribute.weight";
    u "Geo.area";
    u "Geo.distance";
    u "Geo.facilityComponents";
    u "Geo.featureType.AdminRegion";
    u "Geo.featureType.Area";
    u "Geo.featureType.Hydro";
    u "Geo.featureType.Hypso";
    u "Geo.featureType.Misc";
    u "Geo.featureType.PopulatedPlace";
    u "Geo.featureType.SpotFeature";
    u "Geo.featureType.Street";
    u "Geo.featureType.Undersea";
    u "Geo.featureType.Vegetation";
    u "Geo.place.geocoordinate";
    u "Geo.place.namedPlace";
    u "Geo.weather";
    u "Idea.fieldOfStudy";
    u "Idea.idea";
    u "Idea.ideology.politicalIdealogy";
    u "Idea.ideology.socialIdealogy";
    u "Information";
    u "Information.identifier";
    u "Information.identifier.documentTitle";
    u "Information.identifier.MACAddress";
    u "Information.identifier.telephoneNumber";
    u "Information.informationArtifact";
    u "Information.software";
    u "Information.web.emailAddress";
    u "Information.web.IPAddress";
    u "Information.web.url";
    u "Information.web.webSite";
    u "Object";
    u "Object.animal";
    u "Object.clothing";
    u "Object.container";
    u "Object.debris";
    u "Object.electronics";
    u "Object.equipment";
    u "Object.equipment.constructionEquipment";
    u "Object.equipment.tool";
    u "Object.finance.financialInstrument";
    u "Object.finance.money";
    u "Object.finance.money";
    u "Object.food";
    u "Object.vehicle";
    u "Object.vehicle.aircraft";
    u "Object.vehicle.aircraft.combatAircraft";
    u "Object.vehicle.aircraft.combatSupportAircraft";
    u "Object.vehicle.aircraft.helicopter";
    u "Object.vehicle.emergencyVehicle";
    u "Object.vehicle.militaryVehicle";
    u "Object.vehicle.militaryVehicle.armoredVehicle";
    u "Object.vehicle.ship";
    u "Object.vehicle.spacecraft";
    u "Object.vehicle.submarine";
    u "Object.weapon";
    u "Object.weapon.explosive";
    u "Object.weapon.firearm";
    u "Object.weapon.weaponOfMassDestruction";
    u "Organization";
    u "Organization.corporateOrganization";
    u "Organization.criminalOrganization";
    u "Organization.governmentOrganization";
    u "Organization.governmentOrganization.politicalParty";
    u "Organization.governmentOrganization.USGovernmentOrganization";
    u "Organization.informalOrganization";
    u "Organization.internationalOrganization";
    u "Organization.media.newspaper";
    u "Organization.militantGroup";
    u "Organization.militaryOrganization";
    u "Organization.religion";
    u "Organization.terroristGroup";
    u "Person";
    u "Person.attitude.emotion";
    u "Person.attitude.emotion.negativeEmotion";
    u "Person.attitude.emotion.positiveEmotion";
    u "Person.bodyPart";
    u "Person.ethnicity";
    u "Person.health";
    u "Person.health.disease";
    u "Person.health.injury";
    u "Person.jobOrRole";
    u "Person.language";
    u "Person.name.personName";
    u "Person.name.personName";
    u "Person.name.title.corporateTitle";
    u "Person.name.title.governmentTitle";
    u "Person.name.title.hereditaryTitle";
    u "Person.name.title.militaryTitle";
    u "Person.name.title.personalTitle";
    u "Person.name.title.religiousTitle";
    u "Person.relative";
    u "Substance";
    u "Substance.chemical";
    u "Substance.drug";
    u "Substance.material";
    u "Time.date";
    u "Time.date";
    u "Time.dayOfTheWeek";
    u "Time.holiday";
    u "Time.lengthOfTime";
    u "Time.month";
    u "Time.season";
    u "Time.time";
    u "Time.timePhrase" ].

(** [fhierarchy.split('.')[0]]. *)
Definition first_segment (category : ustring) : ustring :=
  hd [] (split_on 46 category).

(** The entity kinds found under a top-level category. *)
Definition kinds_of_segment (segment : ustring) : list EntityType :=
  if bool_decide (segment = u "Action") then [EVENT]
  else if bool_decide (segment = u "Geo") then [LOC; FAC]
  else if bool_decide (segment = u "Organization") then [ORG]
  else if bool_decide (segment = u "Person") then [PER]
  else [].

(** ** Overlapping records *)

(** The record at position [j] is the last of the list that writes to the
    token at [a]. *)
Definition last_writer (find_range : SortedCollection -> json -> json -> list addr)
    (toks : SortedCollection) (annos : list json) (j : nat) (a : addr) : Prop :=
  exists anno,
    annos !! j = Some anno
    /\ annotates find_range toks anno a = true
    /\ forall j' anno', (j < j')%nat -> annos !! j' = Some anno' ->
                        annotates find_range toks anno' a = false.

(** ** Malformed results *)

(** The result is no object, or its ['annoList'] is a value that does not
    iterate ([null], a boolean or a number). *)
Definition malformed_result (result : json) : bool :=
  match result with
  | JObj fields =>
      match assoc (u "annoList") fields with
      | Some (JNull | JBool _ | JInt _ | JFloat _) => true
      | _ => false
      end
  | _ => true
  end.

(** ** Further documents *)

(** The default configuration with credentials. *)
Definition credentials_config : json :=
  JObj [ (u "scheme", JStr (u "https"));
         (u "network_address", JStr (u "localhost:8182"));
         (u "service_path", JStr (u "/opensextant/extract/general/json"));
         (u "verify_ssl", JBool false);
         (u "username", JStr (u "alice"));
         (u "password", JStr (u "secret")) ].

(** Two records over the same bytes of the first test document, a place
    and then a person. *)
Definition overlap_result : json :=
  JObj [ (u "annoList",
          JArr [ paris_anno; mk_anno 13 18 "Paris" true "Person.name.personName" ]) ].

(** The record of ['Paris'] without its ['matchText']. *)
Definition no_match_text_anno : json :=
  JObj [ (u "start", JInt 13);
         (u "end", JInt 18);
         (u "features", JObj [ (u "isEntity", JBool true);
                               (u "hierarchy", JStr (u "Geo.featureType.PopulatedPlace")) ]) ].


(** A token that carries a character offset only. *)
Definition chars_only_token : Token :=
  {| token := b "Paris";
     offsets := [(CHARS, {| Offset.first := 2; Offset.length := 5 |})];
     entity_type := None;
     mention_type := None;
     mention_id := None;
     equiv_id := None |}.

(** The store of the first test document with one more token, which no
    sentence names. *)
Definition paris_texas_and_one : list Token :=
  paris_texas_tokens ++ [ mk_token "Paris," 13 6 ].

(** * Proofs *)

Ltac split_outcome :=
  match goal with
  | |- context [match ?o with Ok _ => _ | Raise _ => _ end] =>
      destruct o eqn:?; cbn
  | |- context [if ?c then _ else _] => destruct c eqn:?; cbn
  end.

Example resolve_populated_place :
  resolve (u "Geo.featureType.PopulatedPlace") = Some (LOC, NAME) /\ resolve (u "Geo") = None.
Proof. split; reflexivity. Qed.

Example resolve_person_subcategory :
  resolve (u "Person.somethingNew") = Some (PER, NAME).
Proof. reflexivity. Qed.

(** ** Facts about the building blocks *)

Lemma state_eta (st : state) : {| heap := heap st; log := log st |} = st.
Proof. by destruct st. Qed.

Lemma set_annotation_same_identity e m i t1 t2 :
  identity t1 = identity t2 -> set_annotation e m i t1 = set_annotation e m i t2.
Proof.
  destruct t1, t2; unfold identity, set_annotation; simpl.
  by intros [= -> ->].
Qed.

Lemma write_all_length entity mention targets h :
  length (write_all entity mention targets h) = length h.
Proof.
  destruct entity as [[e m]|]; simpl; [|done].
  revert h; induction targets as [|a targets IH]; intros h; simpl; [done|].
  by rewrite IH, length_alter.
Qed.

Lemma write_all_lookup e m mention targets h a :
  write_all (Some (e, m)) mention targets h !! a =
  if bool_decide (a ∈ targets)
  then set_annotation e m mention <$> h !! a
  else h !! a.
Proof.
  unfold write_all. revert h; induction targets as [|x targets IH]; intros h.
  - case_bool_decide as Hin; [|done]. by apply elem_of_nil in Hin.
  - cbn [foldl]. rewrite IH. destruct (decide (a = x)) as [->|Hne].
    + rewrite list_lookup_alter_eq.
      rewrite (bool_decide_eq_true_2 (x ∈ x :: targets)) by apply list_elem_of_here.
      case_bool_decide; [|done].
      destruct (h !! x); reflexivity.
    + rewrite list_lookup_alter_ne by done.
      replace (bool_decide (a ∈ x :: targets)) with (bool_decide (a ∈ targets)); [done|].
      apply bool_decide_ext. rewrite elem_of_cons. tauto.
Qed.

Lemma write_all_identity entity mention targets h :
  identity <$> write_all entity mention targets h = identity <$> h.
Proof.
  destruct entity as [[e m]|]; [|done].
  apply list_eq; intros a. rewrite !list_lookup_fmap, write_all_lookup.
  case_bool_decide; [|done]. by destruct (h !! a).
Qed.

Section AlignerFacts.

Variable find_range : SortedCollection -> json -> json -> list addr.

(** The token loop of one record: it raises at its first token or never, and
    what it writes does not depend on the store. *)
Lemma for_each_annotate_token anno mention targets st :
  for_each targets (annotate_token anno mention) st =
  match targets, lookup_types anno with
  | [], _ => (st, Ok tt)
  | _ :: _, Raise e => (st, Raise e)
  | _ :: _, Ok _ =>
      ({| heap := write_all (anno_entity anno) mention targets (heap st);
          log := log st |}, Ok tt)
  end.
Proof.
  destruct targets as [|a targets]; [done|].
  destruct (lookup_types anno) as [[ety mty]|e] eqn:Hty.
  - assert (Hall : forall l st,
      for_each l (annotate_token anno mention) st =
      ({| heap := write_all (anno_entity anno) mention l (heap st);
          log := log st |}, Ok tt)).
    { unfold anno_entity. rewrite Hty.
      intros l; induction l as [|x l IH]; intros st'; cbn [for_each].
      - destruct ety; cbn; by rewrite state_eta.
      - unfold bind at 1. unfold annotate_token at 1, bind, lift. rewrite Hty.
        destruct ety as [e_type|]; cbn; rewrite IH; reflexivity. }
    apply Hall.
  - cbn [for_each]. unfold bind, annotate_token, lift. by rewrite Hty.
Qed.

Lemma check_alignment_facts text anno start end_ st1 st2 :
  snd (check_alignment text anno start end_ st1)
  = snd (check_alignment text anno start end_ st2)
  /\ heap (fst (check_alignment text anno start end_ st1)) = heap st1.
Proof.
  unfold check_alignment, bind, lift, logger, ret.
  repeat (split_outcome; try done).
Qed.
Lemma bind_lift {A B} (o : outcome A) (k : A -> M B) st :
  bind (lift o) k st = match o with Ok a => k a st | Raise e => (st, Raise e) end.
Proof. unfold bind, lift. by destruct o. Qed.

Lemma bind_run {A B} (m : M A) (k : A -> M B) st :
  bind m k st = match m st with (st', Ok a) => k a st' | (st', Raise e) => (st', Raise e) end.
Proof. reflexivity. Qed.

Lemma anno_step_facts text toks mention anno st1 st2 :
  snd (anno_step find_range text toks mention anno st1)
  = snd (anno_step find_range text toks mention anno st2)
  /\ heap (fst (anno_step find_range text toks mention anno st1))
     = step_heap find_range toks mention anno
         (snd (anno_step find_range text toks mention anno st1)) (heap st1)
  /\ forall mention',
       snd (anno_step find_range text toks mention anno st1) = Ok mention' ->
       mention' = mention + (if anno_is_entity anno then 1 else 0).
Proof.
  unfold anno_step, step_heap, anno_is_entity, anno_range.
  rewrite !bind_lift.
  destruct (py_get anno (u "features") (JObj [])) as [features|e]; [|by cbn].
  rewrite !bind_lift.
  destruct (py_get features (u "isEntity") JNull) as [v|e]; [|by cbn].
  destruct (truthy v); cbn [negb]; [|cbn; split; [done|split; [done|intros ? [= <-]; lia]]].
  rewrite !bind_lift.
  destruct (py_getitem anno (u "start")) as [start|e]; [|by cbn].
  rewrite !bind_lift.
  destruct (py_getitem anno (u "end")) as [end_|e]; [|by cbn].
  rewrite !bind_run.
  destruct (check_alignment_facts text anno start end_ st1 st2) as [Hr Hh].
  destruct (check_alignment text anno start end_ st1) as [st1' r1].
  destruct (check_alignment text anno start end_ st2) as [st2' r2].
  cbn in Hr, Hh. subst r2.
  destruct r1 as [[]|e]; [|by cbn].
  rewrite !bind_run, !for_each_annotate_token.
  destruct (find_range toks start end_) as [|a targets].
  { cbn. split; [done|split; [by destruct (anno_entity anno) as [[]|]|intros ? [= <-]; lia]]. }
  destruct (lookup_types anno); cbn; [|done].
  split; [done|split; [by rewrite Hh|intros ? [= <-]; lia]].
Qed.

Lemma anno_loop_cons text toks anno annos mention st :
  anno_loop find_range text toks (anno :: annos) mention st =
  match anno_step find_range text toks mention anno st with
  | (st', Ok mention') => anno_loop find_range text toks annos mention' st'
  | (st', Raise e) => (st', Raise e)
  end.
Proof. reflexivity. Qed.

(** How the loop ends does not depend on the state it starts from. *)
Lemma anno_loop_status text toks annos mention st1 st2 :
  snd (anno_loop find_range text toks annos mention st1)
  = snd (anno_loop find_range text toks annos mention st2).
Proof.
  revert mention st1 st2; induction annos as [|anno annos IH]; intros mention st1 st2.
  - reflexivity.
  - rewrite !anno_loop_cons.
    destruct (anno_step_facts text toks mention anno st1 st2) as (Hr & _ & _).
    destruct (anno_step find_range text toks mention anno st1) as [st1' r1].
    destruct (anno_step find_range text toks mention anno st2) as [st2' r2].
    cbn in Hr; subst r2. destruct r1; [apply IH|done].
Qed.

Lemma step_heap_identity toks mention anno r h :
  identity <$> step_heap find_range toks mention anno r h = identity <$> h.
Proof.
  unfold step_heap. destruct r; [|done].
  destruct (anno_is_entity anno); [|done].
  destruct (anno_range anno) as [[start end_]|]; [|done].
  apply write_all_identity.
Qed.

(** The loop never changes the text or the offsets of a token. *)
Lemma anno_loop_identity text toks annos mention st :
  identity <$> heap (fst (anno_loop find_range text toks annos mention st))
  = identity <$> heap st.
Proof.
  revert mention st; induction annos as [|anno annos IH]; intros mention st.
  - reflexivity.
  - rewrite anno_loop_cons.
    destruct (anno_step_facts text toks mention anno st st) as (_ & Hh & _).
    destruct (anno_step find_range text toks mention anno st) as [st' r].
    cbn in Hh.
    assert (identity <$> heap st' = identity <$> heap st) as Hid
      by (rewrite Hh; apply step_heap_identity).
    destruct r; [by rewrite IH|done].
Qed.

Lemma step_heap_lookup toks mention anno r h a :
  step_heap find_range toks mention anno r h !! a =
  match r, anno_entity anno with
  | Ok _, Some (e, m) =>
      if annotates find_range toks anno a then set_annotation e m mention <$> h !! a else h !! a
  | _, _ => h !! a
  end.
Proof.
  unfold step_heap, annotates. destruct r as [mention'|]; [|done].
  destruct (anno_is_entity anno); cbn [andb].
  - destruct (anno_range anno) as [[start end_]|].
    + destruct (anno_entity anno) as [[e m]|]; [|done].
      by rewrite write_all_lookup.
    + by destruct (anno_entity anno) as [[e m]|].
  - by destruct (anno_entity anno) as [[e m]|].
Qed.

Lemma annotates_entity toks anno a :
  annotates find_range toks anno a = true -> is_Some (anno_entity anno).
Proof.
  unfold annotates. intros [_ H]%andb_true_iff.
  destruct (anno_range anno) as [[? ?]|]; [|done].
  by destruct (anno_entity anno).
Qed.

Lemma step_heap_untouched toks mention anno r h a :
  annotates find_range toks anno a = false -> step_heap find_range toks mention anno r h !! a = h !! a.
Proof.
  intros Hno. rewrite step_heap_lookup, Hno.
  destruct r; [|done]. by destruct (anno_entity anno) as [[e m]|].
Qed.

(** A token no record writes to is the same after the loop, however the loop
    ends. *)
Lemma anno_loop_untouched text toks annos mention st a :
  (forall anno, anno ∈ annos -> annotates find_range toks anno a = false) ->
  heap (fst (anno_loop find_range text toks annos mention st)) !! a = heap st !! a.
Proof.
  revert mention st; induction annos as [|anno annos IH]; intros mention st Hno.
  - reflexivity.
  - rewrite anno_loop_cons.
    destruct (anno_step_facts text toks mention anno st st) as (_ & Hh & _).
    destruct (anno_step find_range text toks mention anno st) as [st' r].
    cbn in Hh.
    assert (heap st' !! a = heap st !! a) as Hstep.
    { rewrite Hh. apply step_heap_untouched, Hno, list_elem_of_here. }
    destruct r as [mention'|]; [|done].
    rewrite IH; [done|]. intros anno' Hin. by apply Hno, list_elem_of_further.
Qed.


Lemma identity_lookup (h1 h2 : list Token) (a : nat) :
  identity <$> h1 = identity <$> h2 ->
  match h1 !! a, h2 !! a with
  | Some t1, Some t2 => identity t1 = identity t2
  | None, None => True
  | _, _ => False
  end.
Proof.
  intros Hid. assert ((identity <$> h1) !! a = (identity <$> h2) !! a) as Ha
    by (by rewrite Hid).
  rewrite !list_lookup_fmap in Ha.
  destruct (h1 !! a), (h2 !! a); cbn in Ha; try done; congruence.
Qed.

(** Two runs of the loop from stores with the same tokens (text and
    offsets): a token ends equal in both, or is left as it was in both. *)
Lemma anno_loop_sim text toks annos mention st1 st2 a :
  identity <$> heap st1 = identity <$> heap st2 ->
  heap (fst (anno_loop find_range text toks annos mention st1)) !! a
  = heap (fst (anno_loop find_range text toks annos mention st2)) !! a
  \/ (heap (fst (anno_loop find_range text toks annos mention st1)) !! a = heap st1 !! a
      /\ heap (fst (anno_loop find_range text toks annos mention st2)) !! a = heap st2 !! a).
Proof.
  revert mention st1 st2; induction annos as [|anno annos IH]; intros mention st1 st2 Hid.
  - by right.
  - rewrite !anno_loop_cons.
    destruct (anno_step_facts text toks mention anno st1 st2) as (Hr & Hh1 & _).
    destruct (anno_step_facts text toks mention anno st2 st1) as (_ & Hh2 & _).
    destruct (anno_step find_range text toks mention anno st1) as [st1' r1].
    destruct (anno_step find_range text toks mention anno st2) as [st2' r2].
    cbn in Hr, Hh1, Hh2. subst r2.
    assert (identity <$> heap st1' = identity <$> heap st2') as Hid'.
    { by rewrite Hh1, Hh2, !step_heap_identity. }
    assert (heap st1' !! a = heap st2' !! a
            \/ (heap st1' !! a = heap st1 !! a /\ heap st2' !! a = heap st2 !! a))
      as Hstep.
    { rewrite Hh1, Hh2, !step_heap_lookup.
      destruct r1 as [m1|]; [|by right].
      destruct (anno_entity anno) as [[e m]|]; [|by right].
      destruct (annotates find_range toks anno a); [left|by right].
      pose proof (identity_lookup _ _ a Hid) as Ha.
      destruct (heap st1 !! a), (heap st2 !! a); cbn; try done.
      f_equal. by apply set_annotation_same_identity. }
    destruct r1 as [m1|]; [|done].
    destruct (IH m1 st1' st2' Hid') as [Heq|[H1 H2]]; [by left|].
    rewrite H1, H2. done.
Qed.

Lemma keyed_run items st : keyed items st = (st, keys_of (heap st) items).
Proof.
  unfold keys_of. revert st; induction items as [|a items IH]; intros st; [done|].
  cbn [keyed]. rewrite !bind_run. unfold read_token. cbn [heap].
  destruct (heap st !! a) as [tok|]; [|done].
  rewrite !bind_lift. destruct (token_key tok) as [k|]; [|done].
  rewrite !bind_run, IH, (IH {| heap := heap st; log := [] |}). cbn [heap].
  by destruct (snd (keyed items {| heap := heap st; log := [] |})).
Qed.

Lemma token_key_identity t1 t2 :
  identity t1 = identity t2 -> token_key t1 = token_key t2.
Proof. unfold identity, token_key. by intros [= _ ->]. Qed.

Lemma keys_of_identity (h1 h2 : list Token) items :
  identity <$> h1 = identity <$> h2 -> keys_of h1 items = keys_of h2 items.
Proof.
  intros Hid. induction items as [|a items IH]; [done|].
  unfold keys_of at 1 2. cbn [keyed]. rewrite !bind_run. unfold read_token. cbn [heap].
  pose proof (identity_lookup _ _ a Hid) as Ha.
  destruct (h1 !! a) as [t1|], (h2 !! a) as [t2|]; try done.
  rewrite !bind_lift, (token_key_identity t1 t2 Ha).
  destruct (token_key t2) as [k|]; [|done].
  rewrite !bind_run, !keyed_run. cbn [heap].
  rewrite IH. by destruct (keys_of h2 items).
Qed.

Lemma annotate_sentences_eq si result st :
  annotate_sentences find_range si result st =
  let st0 := {| heap := heap st; log := log st ++ [(INFO, [result])] |} in
  match prelude si result (heap st) with
  | Raise e => (st0, Raise e)
  | Ok (text, toks, annos) =>
      match anno_loop find_range text toks annos 0 st0 with
      | (st', Ok _) => (st', Ok None)
      | (st', Raise e) => (st', Raise e)
      end
  end.
Proof.
  unfold annotate_sentences, prelude. rewrite bind_run. cbn [logger].
  rewrite bind_lift. destruct (body si) as [c|]; [|done].
  rewrite bind_lift. destruct (sentences c !! "nltk_tokenizer"%string) as [entry|]; [|done].
  rewrite bind_lift. destruct entry as [sents|]; [|done].
  rewrite bind_run, keyed_run. cbn [heap].
  destruct (keys_of (heap st) (chain sents)) as [toks|]; [|done].
  rewrite bind_lift. destruct (py_get result (u "annoList") (JArr [])) as [al|]; [|done].
  rewrite bind_lift. destruct (py_iter al) as [annos|]; [|done].
  rewrite bind_run.
  by destruct (anno_loop find_range (clean_visible c) toks annos 0 _) as [st' [m|e]].
Qed.

Lemma prelude_identity si result (h1 h2 : list Token) :
  identity <$> h1 = identity <$> h2 -> prelude si result h1 = prelude si result h2.
Proof.
  intros Hid. unfold prelude. destruct (body si) as [c|]; [|done].
  destruct (sentences c !! "nltk_tokenizer"%string) as [[sents|]|]; try done.
  by rewrite (keys_of_identity h1 h2 _ Hid).
Qed.

Lemma prelude_Ok si result h text toks annos :
  prelude si result h = Ok (text, toks, annos) ->
  toks = collection si h /\ annos = annotations result.
Proof.
  unfold prelude, collection, annotations.
  destruct (body si) as [c|]; [|done].
  destruct (sentences c !! "nltk_tokenizer"%string) as [[sents|]|]; try done.
  destruct (keys_of h (chain sents)) as [toks'|]; [|done].
  destruct (py_get result (u "annoList") (JArr [])) as [al|]; [|done].
  destruct (py_iter al) as [annos'|]; [|done].
  by intros [= _ <- <-].
Qed.

(** The store after the whole call, whichever way it ends. *)
Lemma annotate_sentences_heap si result st :
  heap (fst (annotate_sentences find_range si result st)) =
  match prelude si result (heap st) with
  | Raise _ => heap st
  | Ok (text, toks, annos) =>
      heap (fst (anno_loop find_range text toks annos 0
                   {| heap := heap st; log := log st ++ [(INFO, [result])] |}))
  end.
Proof.
  rewrite annotate_sentences_eq. cbn zeta.
  destruct (prelude si result (heap st)) as [[[text toks] annos]|]; [|done].
  by destruct (anno_loop find_range text toks annos 0 _) as [st' [m|e]].
Qed.

(** C9. Running [annotate_sentences] a second time on the same stream item
    with the same result, over the store the first run left, leaves every
    token as the first run left it: each run starts its counter at zero and
    overwrites the four annotation fields, so the store (and with it the
    entity kind, mention kind, mention id and equivalence id of each token)
    is the same after two runs as after one. *)
Theorem annotate_sentences_idempotent si result st :
  heap (fst (annotate_sentences find_range si result
               (fst (annotate_sentences find_range si result st))))
  = heap (fst (annotate_sentences find_range si result st)).
Proof.
  set (st1 := fst (annotate_sentences find_range si result st)).
  assert (heap st1 = match prelude si result (heap st) with
                     | Raise _ => heap st
                     | Ok (text, toks, annos) =>
                         heap (fst (anno_loop find_range text toks annos 0
                           {| heap := heap st; log := log st ++ [(INFO, [result])] |}))
                     end) as H1 by apply annotate_sentences_heap.
  assert (identity <$> heap st1 = identity <$> heap st) as Hid.
  { rewrite H1. destruct (prelude si result (heap st)) as [[[text toks] annos]|]; [|done].
    by rewrite anno_loop_identity. }
  rewrite annotate_sentences_heap, (prelude_identity si result _ _ Hid).
  destruct (prelude si result (heap st)) as [[[text toks] annos]|]; [|done].
  apply list_eq; intros a.
  set (st0 := {| heap := heap st; log := log st ++ [(INFO, [result])] |}) in *.
  set (st0' := {| heap := heap st1; log := log st1 ++ [(INFO, [result])] |}).
  destruct (anno_loop_sim text toks annos 0 st0 st0' a) as [Heq|[_ H2]].
  - cbn. by rewrite Hid.
  - by rewrite H1.
  - by rewrite H2.
Qed.



Lemma resolve_types_shape h parts :
  resolve_types h parts = (None, None)
  \/ exists e m, resolve_types h parts = (Some e, Some m).
Proof.
  unfold resolve_types.
  destruct (entity_types_get h) as [[e m]|]; [right; eauto|].
  destruct (entity_types_get (hd [] parts)) as [[e m]|]; [right; eauto|by left].
Qed.

(** What the token loop writes is the resolution of the record's category. *)
Lemma anno_entity_resolve anno e m :
  anno_entity anno = Some (e, m) ->
  exists h m', anno_category anno = Some h /\ m = Some m' /\ resolve h = Some (e, m').
Proof.
  unfold anno_entity, anno_category, lookup_types, resolve.
  destruct (py_getitem anno (u "features")) as [features|]; [|done].
  destruct (py_getitem features (u "hierarchy")) as [[| | | |h| |]|]; try done.
  destruct (resolve_types_shape h (split_on 46 h)) as [Heq|(e' & m' & Heq)];
    rewrite Heq; [done|].
  intros [= -> <-]. exists h, m'. by rewrite Heq.
Qed.

Lemma anno_category_entity anno h :
  anno_category anno = Some h ->
  anno_entity anno = (fun p => (fst p, Some (snd p))) <$> resolve h.
Proof.
  unfold anno_entity, anno_category, lookup_types, resolve.
  destruct (py_getitem anno (u "features")) as [features|]; [|done].
  destruct (py_getitem features (u "hierarchy")) as [[| | | |h'| |]|]; try done.
  intros [= ->].
  by destruct (resolve_types_shape h (split_on 46 h)) as [Heq|(e' & m' & Heq)];
    rewrite Heq.
Qed.




Lemma anno_is_entity_fields anno :
  anno_is_entity anno = true -> exists fields, anno = JObj fields.
Proof. unfold anno_is_entity. destruct anno; try done. eauto. Qed.

(** A record that passes the [isEntity] test and has both offsets goes on to
    the check, the token loop and the increment. *)
Lemma anno_step_entity text toks mention anno st start end_ :
  anno_is_entity anno = true ->
  anno_range anno = Some (start, end_) ->
  anno_step find_range text toks mention anno st =
  (check_alignment text anno start end_;;
   for_each (find_range toks start end_) (annotate_token anno mention);;
   ret (mention + 1)) st.
Proof.
  unfold anno_is_entity, anno_range, anno_step. intros Hent Hrange.
  rewrite bind_lift. destruct (py_get anno (u "features") (JObj [])) as [features|]; [|done].
  rewrite bind_lift. destruct (py_get features (u "isEntity") JNull) as [v|]; [|done].
  rewrite Hent. cbn [negb].
  rewrite bind_lift. destruct (py_getitem anno (u "start")) as [s|]; [|done].
  rewrite bind_lift. destruct (py_getitem anno (u "end")) as [e|]; [|done].
  by injection Hrange as -> ->.
Qed.

(** A record that passes the [isEntity] test and lacks an offset ends the
    step in a [KeyError], the state as it was. *)
Lemma anno_step_no_range text toks mention anno st :
  anno_is_entity anno = true ->
  anno_range anno = None ->
  exists key, (key = u "start" \/ key = u "end") /\
    anno_step find_range text toks mention anno st = (st, Raise (KeyError (JStr key))).
Proof.
  intros Hent Hrange. destruct (anno_is_entity_fields _ Hent) as [fields ->].
  unfold anno_is_entity, anno_range, anno_step in *.
  rewrite bind_lift. destruct (py_get (JObj fields) (u "features") (JObj [])) as [features|]; [|done].
  rewrite bind_lift. destruct (py_get features (u "isEntity") JNull) as [v|]; [|done].
  rewrite Hent. cbn [negb]. rewrite bind_lift.
  unfold py_getitem in *.
  destruct (assoc (u "start") fields) as [s|].
  - rewrite bind_lift. destruct (assoc (u "end") fields) as [e|]; [done|].
    exists (u "end"). split; [by right|done].
  - exists (u "start"). split; [by left|done].
Qed.

Lemma anno_step_Ok_range text toks mention anno st st' mention' :
  anno_step find_range text toks mention anno st = (st', Ok mention') ->
  anno_is_entity anno = true ->
  is_Some (anno_range anno).
Proof.
  intros Hrun Hent. destruct (anno_range anno) as [p|] eqn:Hrange; [by eexists|].
  destruct (anno_step_no_range text toks mention anno st Hent Hrange) as (key & _ & Hraise).
  congruence.
Qed.

Lemma anno_loop_app text toks pre post mention st :
  anno_loop find_range text toks (pre ++ post) mention st =
  match anno_loop find_range text toks pre mention st with
  | (st', Ok mention') => anno_loop find_range text toks post mention' st'
  | (st', Raise e) => (st', Raise e)
  end.
Proof.
  revert mention st; induction pre as [|anno pre IH]; intros mention st; [done|].
  cbn [app]. rewrite !anno_loop_cons.
  destruct (anno_step find_range text toks mention anno st) as [st' [m|e]]; [apply IH|done].
Qed.

(** C3, as amended. When the step of a record ends normally, the counter has
    moved by one if the record passed the [isEntity] test and not at all
    otherwise: whether the category resolves, and how many tokens the range
    query returned, play no part. A record whose category resolves to [None]
    leaves every token as it was. *)
Theorem anno_step_counter text toks mention anno st st' mention' :
  anno_step find_range text toks mention anno st = (st', Ok mention') ->
  mention' = mention + (if anno_is_entity anno then 1 else 0)
  /\ forall h, anno_category anno = Some h -> resolve h = None -> heap st' = heap st.
Proof.
  intros Hrun.
  destruct (anno_step_facts text toks mention anno st st) as (_ & Hh & Hm).
  rewrite Hrun in Hh, Hm. cbn in Hh, Hm. split; [by apply Hm|].
  intros h Hcat Hres. rewrite Hh. unfold step_heap.
  rewrite (anno_category_entity _ _ Hcat), Hres. cbn.
  destruct (anno_is_entity anno); [|done].
  by destruct (anno_range anno) as [[? ?]|].
Qed.

(** C4, as amended. A record that passes the [isEntity] test and lacks
    ['start'] or ['end'] raises [KeyError] out of the loop: the records
    before it have been applied and stay so, nothing is done for the record
    itself, and the records after it are not processed. *)
Theorem anno_loop_missing_offset text toks pre anno post mention st st1 mention1 :
  anno_loop find_range text toks pre mention st = (st1, Ok mention1) ->
  anno_is_entity anno = true ->
  anno_range anno = None ->
  exists key, (key = u "start" \/ key = u "end") /\
    anno_loop find_range text toks (pre ++ anno :: post) mention st
    = (st1, Raise (KeyError (JStr key))).
Proof.
  intros Hpre Hent Hrange.
  destruct (anno_step_no_range text toks mention1 anno st1 Hent Hrange)
    as (key & Hkey & Hraise).
  exists key. split; [done|].
  by rewrite anno_loop_app, Hpre, anno_loop_cons, Hraise.
Qed.

(** C5, as amended. For a record that passes the [isEntity] test and whose
    category resolves to a pair, the step that ends normally has written
    that pair and the current counter to exactly the tokens that
    [find_range] returns for the record's [start] and [end] over the keyed
    collection, and has left every other token as it was. *)
Theorem anno_step_selection text toks mention anno st st' mention' h e m :
  anno_step find_range text toks mention anno st = (st', Ok mention') ->
  anno_is_entity anno = true ->
  anno_category anno = Some h ->
  resolve h = Some (e, m) ->
  exists start end_,
    anno_range anno = Some (start, end_) /\
    forall a,
      heap st' !! a =
      if bool_decide (a ∈ find_range toks start end_)
      then set_annotation e (Some m) mention <$> heap st !! a
      else heap st !! a.
Proof.
  intros Hrun Hent Hcat Hres.
  destruct (anno_step_Ok_range _ _ _ _ _ _ _ Hrun Hent) as [[start end_] Hrange].
  exists start, end_. split; [done|]. intros a.
  destruct (anno_step_facts text toks mention anno st st) as (_ & Hh & _).
  rewrite Hrun in Hh. cbn in Hh. rewrite Hh. unfold step_heap.
  rewrite Hent, Hrange, (anno_category_entity _ _ Hcat), Hres. cbn [fmap option_fmap option_map fst snd].
  apply write_all_lookup.
Qed.

Lemma slice_split (s : ustring) (i k j : Z) :
  0 <= i -> i <= k -> k <= j ->
  slice s (Some i) (Some j) = slice s (Some i) (Some k) ++ slice s (Some k) (Some j).
Proof.
  intros Hi Hk Hj. unfold slice, clamp.
  set (n := Z.of_nat (length s)). assert (0 <= n) by lia.
  rewrite !(proj2 (Z.ltb_ge _ 0)) by lia.
  set (i' := Z.to_nat (Z.max 0 (Z.min n i))).
  set (k' := Z.to_nat (Z.max 0 (Z.min n k))).
  set (j' := Z.to_nat (Z.max 0 (Z.min n j))).
  assert (i' <= k' <= j')%nat as [Hik Hkj] by lia.
  replace (Z.to_nat (Z.max 0 (Z.min n j) - Z.max 0 (Z.min n i))) with ((k' - i') + (j' - k'))%nat by lia.
  replace (Z.to_nat (Z.max 0 (Z.min n k) - Z.max 0 (Z.min n i))) with (k' - i')%nat by lia.
  replace (Z.to_nat (Z.max 0 (Z.min n j) - Z.max 0 (Z.min n k))) with (j' - k')%nat by lia.
  rewrite <- take_take_drop, drop_drop. do 3 f_equal. lia.
Qed.

(** The text a mismatch is logged with: for offsets at least three
    characters into the text, the three characters before [start], the text
    between the offsets, and the three characters after [end] (fewer where
    the text ends). *)
Lemma window_context (text : ustring) (s e : Z) :
  3 <= s -> s <= e ->
  slice text (Some (s - 3)) (Some (e + 3))
  = slice text (Some (s - 3)) (Some s) ++ slice text (Some s) (Some e)
    ++ slice text (Some e) (Some (e + 3)).
Proof.
  intros Hs He.
  rewrite (slice_split text (s - 3) s (e + 3)) by lia.
  by rewrite (slice_split text s e (e + 3)) by lia.
Qed.

(** The text a mismatch at the beginning of the text is logged with: for a
    [start] below three the lower bound [start - 3] is negative and is
    counted from the end of the text, so on a text that goes on for
    [6 - start] characters or more after [end] the slice is empty. *)
Lemma window_at_text_start (text : ustring) (s e : Z) :
  0 <= s < 3 -> s <= e -> e + 6 - s <= Z.of_nat (length text) ->
  slice text (Some (s - 3)) (Some (e + 3)) = [].
Proof.
  intros Hs He Hn. unfold slice, clamp.
  rewrite (proj2 (Z.ltb_lt (s - 3) 0)) by lia.
  rewrite (proj2 (Z.ltb_ge (e + 3) 0)) by lia.
  replace (Z.to_nat _) with 0%nat by lia. done.
Qed.

(** A mismatch is logged and nothing more: the step of a record with integer
    offsets whose text between the offsets differs from its [matchText] logs
    one record at critical level and goes on with the token loop and the
    increment. *)
Lemma anno_step_mismatch_run text toks mention anno st s e decoded mt :
  anno_is_entity anno = true ->
  anno_range anno = Some (JInt s, JInt e) ->
  py_decode_utf8 text = Ok decoded ->
  py_getitem anno (u "matchText") = Ok mt ->
  unicode_eq (slice decoded (Some s) (Some e)) mt = false ->
  let window := slice decoded (Some (s - 3)) (Some (e + 3)) in
  let st1 := {| heap := heap st; log := log st ++ [(CRITICAL, [JStr window; mt])] |} in
  anno_step find_range text toks mention anno st
  = (for_each (find_range toks (JInt s) (JInt e)) (annotate_token anno mention);;
     ret (mention + 1)) st1
  /\ (forall types, lookup_types anno = Ok types ->
        anno_step find_range text toks mention anno st
        = ({| heap := write_all (anno_entity anno) mention
                        (find_range toks (JInt s) (JInt e)) (heap st);
              log := log st1 |}, Ok (mention + 1))).
Proof.
  intros Hent Hrange Hdec Hmt Hne window st1.
  assert (anno_step find_range text toks mention anno st
          = (for_each (find_range toks (JInt s) (JInt e)) (annotate_token anno mention);;
             ret (mention + 1)) st1) as Hstep.
  { rewrite (anno_step_entity _ _ _ _ _ _ _ Hent Hrange).
    rewrite bind_run. unfold check_alignment, bind at 1, lift at 1.
    rewrite Hdec. unfold bind at 1, lift at 1, py_slice at 1. cbn [py_index py_int].
    unfold bind at 1, lift at 1. rewrite Hmt, Hne. cbn [negb].
    unfold bind, lift, logger, py_slice. cbn [py_add_int py_index py_int].
    replace (s + -3) with (s - 3) by lia. reflexivity. }
  split; [done|]. intros types Htypes. rewrite Hstep.
  rewrite bind_run, for_each_annotate_token, Htypes.
  destruct (find_range toks (JInt s) (JInt e)) as [|a targets]; cbn.
  - by destruct (anno_entity anno) as [[? ?]|].
  - done.
Qed.

(** X16. A record with integer offsets whose text between the offsets
    differs from its [matchText]: the step logs one record at critical
    level, with the slice of the text from [start - 3] to [end + 3] and the
    [matchText], and then goes on as for any other record, with the offsets
    as given: the token loop over [find_range(start, end)] and the increment
    of the counter. The mismatch raises nothing: with a category the token
    loop can read, the step ends normally, the tokens of the range are
    written and the counter is one more. For offsets at least three
    characters into the text, the logged text is the three characters before
    [start], the text between the offsets and the three characters after
    [end]. *)
Theorem anno_step_mismatch text toks mention anno st s e decoded mt :
  anno_is_entity anno = true ->
  anno_range anno = Some (JInt s, JInt e) ->
  py_decode_utf8 text = Ok decoded ->
  py_getitem anno (u "matchText") = Ok mt ->
  unicode_eq (slice decoded (Some s) (Some e)) mt = false ->
  let window := slice decoded (Some (s - 3)) (Some (e + 3)) in
  let st1 := {| heap := heap st; log := log st ++ [(CRITICAL, [JStr window; mt])] |} in
  anno_step find_range text toks mention anno st
  = (for_each (find_range toks (JInt s) (JInt e)) (annotate_token anno mention);;
     ret (mention + 1)) st1
  /\ (forall types, lookup_types anno = Ok types ->
        anno_step find_range text toks mention anno st
        = ({| heap := write_all (anno_entity anno) mention
                        (find_range toks (JInt s) (JInt e)) (heap st);
              log := log st1 |}, Ok (mention + 1)))
  /\ (3 <= s -> s <= e ->
      window = slice decoded (Some (s - 3)) (Some s)
               ++ slice decoded (Some s) (Some e)
               ++ slice decoded (Some e) (Some (e + 3))).
Proof.
  intros Hent Hrange Hdec Hmt Hne window st1.
  destruct (anno_step_mismatch_run text toks mention anno st s e decoded mt
              Hent Hrange Hdec Hmt Hne) as [Hstep Happlied].
  split; [done|]. split; [done|]. intros; by apply window_context.
Qed.

(** C6. The window of a mismatch at the beginning of the text. A record with
    integer offsets and a [start] of 0, 1 or 2, whose text between the
    offsets differs from its [matchText], on a text that goes on for
    [6 - start] characters or more after [end]: the step logs one record at
    critical level, and the text in it is the empty string, not the text
    between the offsets with three characters of context, since line 207
    slices from the negative bound [start - 3]. The text that the message
    announces (['take 3 chars off ends']), from the beginning of the text to
    three characters after [end], has [end + 3] characters. The rest is as
    for any mismatch: nothing is raised, and with a category the token loop
    can read the tokens of the range are written, with the offsets as
    given, and the counter is one more. *)
Theorem anno_step_mismatch_at_text_start text toks mention anno st s e decoded mt :
  anno_is_entity anno = true ->
  anno_range anno = Some (JInt s, JInt e) ->
  py_decode_utf8 text = Ok decoded ->
  py_getitem anno (u "matchText") = Ok mt ->
  unicode_eq (slice decoded (Some s) (Some e)) mt = false ->
  0 <= s < 3 -> s <= e -> e + 6 - s <= Z.of_nat (length decoded) ->
  let st1 := {| heap := heap st; log := log st ++ [(CRITICAL, [JStr []; mt])] |} in
  anno_step find_range text toks mention anno st
  = (for_each (find_range toks (JInt s) (JInt e)) (annotate_token anno mention);;
     ret (mention + 1)) st1
  /\ (forall types, lookup_types anno = Ok types ->
        anno_step find_range text toks mention anno st
        = ({| heap := write_all (anno_entity anno) mention
                        (find_range toks (JInt s) (JInt e)) (heap st);
              log := log st1 |}, Ok (mention + 1)))
  /\ length (slice decoded (Some 0) (Some (e + 3))) = Z.to_nat (e + 3).
Proof.
  intros Hent Hrange Hdec Hmt Hne Hs He Hn st1.
  destruct (anno_step_mismatch_run text toks mention anno st s e decoded mt
              Hent Hrange Hdec Hmt Hne) as [Hstep Happlied].
  rewrite (window_at_text_start decoded s e Hs He Hn) in Hstep, Happlied.
  split; [done|]. split; [done|].
  unfold slice, clamp. rewrite (proj2 (Z.ltb_ge (e + 3) 0)) by lia.
  cbn [Z.ltb Z.compare]. rewrite length_take, length_drop. lia.
Qed.

(** C10. A result object without ['annoList'] is read as one with an empty
    list: on a stream item whose tokenized sentences are in place, the call
    ends normally and leaves the store as it was. A record without
    ['features'], or whose ['features'] lacks ['isEntity'] or holds a false
    value there, is skipped: its step logs the record at debug level, ends
    normally, and leaves the store and the counter as they were. *)
Theorem absent_keys_do_not_raise si c sents toks0 fields text toks mention anno st :
  body si = Some c ->
  sentences c !! "nltk_tokenizer"%string = Some (Some sents) ->
  keys_of (heap st) (chain sents) = Ok toks0 ->
  assoc (u "annoList") fields = None ->
  lacks_entity_flag anno = true ->
  annotate_sentences find_range si (JObj fields) st
  = ({| heap := heap st; log := log st ++ [(INFO, [JObj fields])] |}, Ok None)
  /\ anno_step find_range text toks mention anno st
     = ({| heap := heap st; log := log st ++ [(DEBUG, [anno])] |}, Ok mention).
Proof.
  intros Hbody Hsents Hkeys Hlist Hflag. split.
  - rewrite annotate_sentences_eq. unfold prelude.
    rewrite Hbody, Hsents, Hkeys. cbn [py_get]. by rewrite Hlist.
  - unfold lacks_entity_flag in Hflag. destruct anno as [| | | | | |afields]; try done.
    unfold anno_step. rewrite bind_lift. cbn [py_get].
    destruct (assoc (u "features") afields) as [features|]; cbn [from_option id].
    + destruct features as [| | | | | |ffields]; try done.
      rewrite bind_lift. cbn [py_get].
      destruct (assoc (u "isEntity") ffields) as [v|]; cbn [from_option id].
      * by rewrite Hflag.
      * done.
    + rewrite bind_lift. done.
Qed.

End AlignerFacts.

(** * The claims settled on concrete documents *)

(** C2. The table maps ['Person.bodyPart'] to [None], and the lookup order
    by entries would resolve it to [None]; the resolution of the source
    tests the value of [entity_types.get] for truth, takes the stored [None]
    for a missing entry, and falls back to the first segment ['Person']:
    the category resolves to (PER, NAME). *)
Theorem resolve_Person_bodyPart :
  assoc (u "Person.bodyPart") entity_types = Some None
  /\ resolve_by_entry (u "Person.bodyPart") = None
  /\ resolve (u "Person.bodyPart") = Some (PER, NAME).
Proof. repeat split; vm_compute; reflexivity. Qed.

(** Where the table has no [None] entry for the full string, the two lookup
    orders agree. *)
Lemma resolve_agrees_off_None category :
  assoc category entity_types <> Some None ->
  resolve category = resolve_by_entry category.
Proof.
  unfold resolve, resolve_by_entry, resolve_types, entity_types_get.
  destruct (assoc category entity_types) as [[[e m]|]|]; [reflexivity|done|].
  intros _. unfold from_option at 1 3, id.
  by destruct (assoc (hd [] (split_on 46 category)) entity_types) as [[[e m]|]|].
Qed.

(** [annotate_sentences] yields [None] whenever it ends normally. *)
Lemma annotate_sentences_returns_None find_range si result st st' v :
  annotate_sentences find_range si result st = (st', Ok v) -> v = None.
Proof.
  rewrite annotate_sentences_eq. cbn zeta.
  destruct (prelude si result (heap st)) as [[[text toks] annos]|]; [|done].
  destruct (anno_loop find_range text toks annos 0 _) as [st'' [m|e]]; [|done].
  by intros [= _ <-].
Qed.

(** C1. When [process_item] runs on a stream item with a non-empty
    [clean_visible] and ends normally, the entry it has stored under
    ['opensextant'] in the sentences map is [None]: the value of a call of
    [annotate_sentences], which has no [return]. The sentences under
    ['nltk_tokenizer'] are where they were (their tokens annotated in the
    store), but the new entry does not hold them. *)
Theorem process_item_stores_None find_range remote now si c st si' st' :
  body si = Some c ->
  has_text c = true ->
  process_item find_range remote now si st = (si', st', Ok tt) ->
  exists c',
    body si' = Some c'
    /\ sentences c' !! the_tagger_id = Some None
    /\ sentences c' !! "nltk_tokenizer"%string = sentences c !! "nltk_tokenizer"%string.
Proof.
  unfold process_item. intros -> ->.
  destruct (remote _) as [result|]; [|done].
  destruct (annotate_sentences find_range _ result _) as [st2 [v|e]] eqn:Hrun; [|done].
  apply annotate_sentences_returns_None in Hrun as ->.
  intros [= <- _]. eexists. split; [done|]. cbn [sentences]. split.
  - apply lookup_insert_eq.
  - by apply lookup_insert_ne.
Qed.

(** C1 at the first test document: both place names are tagged in the
    store, and the entry under ['opensextant'] is [None]. *)
Lemma process_item_stores_None_witness :
  let run := process_item range_by_key (fun _ => Ok paris_texas_result) 0
               paris_texas_item (mk_state paris_texas_tokens) in
  snd run = Ok tt
  /\ map annotation (heap (snd (fst run)))
     = [ (None, None, None, None); (None, None, None, None);
         (Some LOC, Some NAME, Some 0, Some 0);
         (Some LOC, Some NAME, Some 1, Some 1) ]
  /\ exists c',
       body (fst (fst run)) = Some c'
       /\ sentences c' !! the_tagger_id = Some None
       /\ sentences c' !! "nltk_tokenizer"%string = Some (Some [ {| tokens := seq 0 4 |} ]).
Proof.
  intros run. split; [by vm_compute|]. split; [by vm_compute|].
  destruct run as [[si' st'] r] eqn:Hrun.
  assert (r = Ok tt) as -> by (by replace r with (snd run) by (by rewrite Hrun)).
  destruct (process_item_stores_None range_by_key (fun _ => Ok paris_texas_result) 0
              paris_texas_item _ (mk_state paris_texas_tokens) si' st'
              eq_refl eq_refl Hrun) as (c' & Hb & Hnone & Hsame).
  exists c'. split; [done|]. split; [done|]. rewrite Hsame. by vm_compute.
Defined.

(** A call with a single well-formed record writes to the tokens of its
    range. *)
Lemma annotate_sentences_single find_range si result st text toks anno start end_ types :
  prelude si result (heap st) = Ok (text, toks, [anno]) ->
  anno_is_entity anno = true ->
  anno_range anno = Some (start, end_) ->
  snd (check_alignment text anno start end_ (mk_state [])) = Ok tt ->
  lookup_types anno = Ok types ->
  heap (fst (annotate_sentences find_range si result st))
  = write_all (anno_entity anno) 0 (find_range toks start end_) (heap st).
Proof.
  intros Hpre Hent Hrange Hcheck Htypes.
  rewrite annotate_sentences_heap, Hpre, anno_loop_cons.
  rewrite (anno_step_entity find_range _ _ _ _ _ _ _ Hent Hrange), bind_run.
  set (st0 := {| heap := heap st; log := log st ++ [(INFO, [result])] |}).
  destruct (check_alignment_facts text anno start end_ st0 (mk_state [])) as [Hr Hh].
  rewrite Hcheck in Hr.
  destruct (check_alignment text anno start end_ st0) as [st1 r1]. cbn in Hr, Hh. subst r1.
  rewrite bind_run, for_each_annotate_token, Htypes.
  destruct (find_range toks start end_) as [|a targets]; cbn.
  - by destruct (anno_entity anno) as [[? ?]|].
  - by rewrite Hh.
Qed.

(** C3, counterexample. ['Object'] resolves to [None], and the record of that
    category takes the mention id 0 all the same: the person name after it
    is written with mention id 1. *)
Lemma object_record_takes_a_mention_id :
  resolve (u "Object") = None
  /\ map annotation
       (heap (fst (annotate_sentences range_by_key gun_smith_item gun_smith_result
                     (mk_state gun_smith_tokens))))
     = [ (None, None, None, None); (Some PER, Some NAME, Some 1, Some 1) ].
Proof. split; by vm_compute. Qed.

(** C4, counterexample. The first record has no ['start']: the call ends in
    [KeyError], and the second record, well formed, has not been applied. *)
Lemma missing_start_aborts_the_document :
  snd (annotate_sentences range_by_key paris_texas_item no_start_result
         (mk_state paris_texas_tokens))
  = Raise (KeyError (JStr (u "start")))
  /\ map annotation
       (heap (fst (annotate_sentences range_by_key paris_texas_item no_start_result
                     (mk_state paris_texas_tokens))))
     = [ (None, None, None, None); (None, None, None, None);
         (None, None, None, None); (None, None, None, None) ].
Proof. split; by vm_compute. Qed.

(** C5, counterexample. No range query over the keys makes the claim true:
    the two documents give the collection the same single key, so the query
    returns the same for both, while the span of the short token misses the
    record and the span of the long one meets it. *)
Lemma no_range_query_selects_by_span :
  ~ exists find_range,
      annotates_by_span find_range short_token_item tail_result short_token 5 10
      /\ annotates_by_span find_range long_token_item tail_result long_token 5 10.
Proof.
  intros (find_range & Hshort & Hlong).
  specialize (Hshort 0%nat _ eq_refl). specialize (Hlong 0%nat _ eq_refl).
  rewrite (annotate_sentences_single find_range _ _ _
             (Some (b "abc  fghij")) [(0, 0%nat)]
             (mk_anno 5 10 "fghij" true "Person") (JInt 5) (JInt 10)
             (Some PER, Some NAME)) in Hshort by (by vm_compute).
  rewrite (annotate_sentences_single find_range _ _ _
             (Some (b "abcdefghij")) [(0, 0%nat)]
             (mk_anno 5 10 "fghij" true "Person") (JInt 5) (JInt 10)
             (Some PER, Some NAME)) in Hlong by (by vm_compute).
  replace (anno_entity (mk_anno 5 10 "fghij" true "Person"))
    with (Some (PER, Some NAME)) in Hshort, Hlong by (by vm_compute).
  unfold is_annotated in Hshort, Hlong.
  rewrite write_all_lookup in Hshort, Hlong.
  destruct (bool_decide (0%nat ∈ find_range [(0, 0%nat)] (JInt 5) (JInt 10)));
    cbn in Hshort, Hlong; discriminate.
Qed.

(** With [range_by_key] as the range query, the long token is not
    annotated: it starts before the record, though it overlaps it. *)
Example long_token_is_not_annotated :
  span_intersects (mk_token "abcdefghij" 0 10) 5 10 = true
  /\ is_annotated
       (heap (fst (annotate_sentences range_by_key long_token_item tail_result
                     (mk_state long_token)))) 0 = false.
Proof. split; by vm_compute. Qed.

(** ** The theorems at the test documents *)

(** C3 as amended, at the ['Object'] record of the counterexample document:
    the counter goes from 0 to 1 and no token changes. *)
Lemma anno_step_counter_witness :
  let text := Some (b "gun Smith") in
  let toks := [ (0, 0%nat); (4, 1%nat) ] in
  let anno := mk_anno 0 3 "gun" true "Object" in
  let st := mk_state gun_smith_tokens in
  let st' := fst (anno_step range_by_key text toks 0 anno st) in
  anno_step range_by_key text toks 0 anno st = (st', Ok 1)
  /\ 1 = 0 + (if anno_is_entity anno then 1 else 0)
  /\ heap st' = heap st.
Proof.
  intros text toks anno st st'.
  assert (anno_step range_by_key text toks 0 anno st = (st', Ok 1)) as Hrun
    by (by vm_compute).
  split; [done|].
  destruct (anno_step_counter range_by_key text toks 0 anno st st' 1 Hrun) as [Hm Hh].
  split; [done|]. apply (Hh (u "Object")); by vm_compute.
Defined.

(** C4 as amended, at the first test document with the ['start'] of its
    first record removed. *)
Lemma anno_loop_missing_offset_witness :
  let text := Some (b "Traveling to Paris, Texas.") in
  let st := mk_state paris_texas_tokens in
  let post := [ mk_anno 20 25 "Texas" true "Geo.featureType.PopulatedPlace" ] in
  anno_is_entity no_start_anno = true
  /\ anno_range no_start_anno = None
  /\ exists key,
       (key = u "start" \/ key = u "end")
       /\ anno_loop range_by_key text paris_texas_toks ([] ++ no_start_anno :: post) 0 st
          = (st, Raise (KeyError (JStr key))).
Proof.
  intros text st post. split; [by vm_compute|]. split; [by vm_compute|].
  apply (anno_loop_missing_offset range_by_key text paris_texas_toks []
           no_start_anno post 0 st st 0); by vm_compute.
Defined.

(** C5 as amended, at the record of ['Paris'] in the first test document. *)
Lemma anno_step_selection_witness :
  let text := Some (b "Traveling to Paris, Texas.") in
  let st := mk_state paris_texas_tokens in
  let st' := fst (anno_step range_by_key text paris_texas_toks 0 paris_anno st) in
  anno_step range_by_key text paris_texas_toks 0 paris_anno st = (st', Ok 1)
  /\ resolve (u "Geo.featureType.PopulatedPlace") = Some (LOC, NAME)
  /\ exists start end_,
       anno_range paris_anno = Some (start, end_)
       /\ forall a,
            heap st' !! a =
            if bool_decide (a ∈ range_by_key paris_texas_toks start end_)
            then set_annotation LOC (Some NAME) 0 <$> heap st !! a
            else heap st !! a.
Proof.
  intros text st st'.
  assert (anno_step range_by_key text paris_texas_toks 0 paris_anno st = (st', Ok 1))
    as Hrun by (by vm_compute).
  split; [done|]. split; [by vm_compute|].
  apply (anno_step_selection range_by_key text paris_texas_toks 0 paris_anno st st' 1
           (u "Geo.featureType.PopulatedPlace") LOC NAME Hrun); by vm_compute.
Defined.

(** X16 at the record of ['Paris'] with [matchText] ['paris']: the window
    logged is ['to Paris, T'], and the token of ['Paris,'] is written. *)
Lemma anno_step_mismatch_witness :
  let text := Some (b "Traveling to Paris, Texas.") in
  let st := mk_state paris_texas_tokens in
  unicode_eq (slice (u "Traveling to Paris, Texas.") (Some 13) (Some 18)) (JStr (u "paris"))
  = false
  /\ anno_step range_by_key text paris_texas_toks 0 paris_mismatch_anno st
     = ({| heap := [ mk_token "Traveling" 0 9; mk_token "to" 10 2;
                     set_annotation LOC (Some NAME) 0 (mk_token "Paris," 13 6);
                     mk_token "Texas." 20 6 ];
           log := [ (CRITICAL, [ JStr (u "to Paris, T"); JStr (u "paris") ]) ] |},
        Ok 1).
Proof.
  intros text st. split; [by vm_compute|].
  assert (unicode_eq (slice (u "Traveling to Paris, Texas.") (Some 13) (Some 18))
            (JStr (u "paris")) = false) as Hne by (by vm_compute).
  destruct (anno_step_mismatch range_by_key text paris_texas_toks 0 paris_mismatch_anno st
              13 18 (u "Traveling to Paris, Texas.") (JStr (u "paris"))
              eq_refl eq_refl eq_refl eq_refl Hne) as (_ & Happlied & _).
  rewrite (Happlied (Some LOC, Some NAME) eq_refl). by vm_compute.
Defined.

(** C6 at a record of ['Traveling'], the first word of the first test
    document, with [matchText] ['TRAVELING']: the window logged is the empty
    string, where the text with three characters of context is
    ['Traveling to']; the token of ['Traveling'] is written. *)
Lemma anno_step_mismatch_at_text_start_witness :
  let text := Some (b "Traveling to Paris, Texas.") in
  let st := mk_state paris_texas_tokens in
  unicode_eq (slice (u "Traveling to Paris, Texas.") (Some 0) (Some 9))
    (JStr (u "TRAVELING")) = false
  /\ anno_step range_by_key text paris_texas_toks 0 traveling_mismatch_anno st
     = ({| heap := [ set_annotation LOC (Some NAME) 0 (mk_token "Traveling" 0 9);
                     mk_token "to" 10 2; mk_token "Paris," 13 6;
                     mk_token "Texas." 20 6 ];
           log := [ (CRITICAL, [ JStr []; JStr (u "TRAVELING") ]) ] |},
        Ok 1)
  /\ slice (u "Traveling to Paris, Texas.") (Some 0) (Some (9 + 3)) = u "Traveling to".
Proof.
  intros text st. split; [by vm_compute|].
  assert (unicode_eq (slice (u "Traveling to Paris, Texas.") (Some 0) (Some 9))
            (JStr (u "TRAVELING")) = false) as Hne by (by vm_compute).
  destruct (anno_step_mismatch_at_text_start range_by_key text paris_texas_toks 0
              traveling_mismatch_anno st 0 9 (u "Traveling to Paris, Texas.")
              (JStr (u "TRAVELING")) eq_refl eq_refl eq_refl eq_refl Hne)
    as (_ & Happlied & _); [lia|lia|by vm_compute|].
  split; [|by vm_compute].
  rewrite (Happlied (Some LOC, Some NAME) eq_refl). by vm_compute.
Defined.



(** C10 at the first test document: an empty result object, and a record
    without ['features']. *)
Lemma absent_keys_do_not_raise_witness :
  let st := mk_state paris_texas_tokens in
  annotate_sentences range_by_key paris_texas_item (JObj []) st
  = ({| heap := heap st; log := [ (INFO, [JObj []]) ] |}, Ok None)
  /\ anno_step range_by_key (Some (b "Traveling to Paris, Texas.")) paris_texas_toks 7
       bare_anno st
     = ({| heap := heap st; log := [ (DEBUG, [bare_anno]) ] |}, Ok 7).
Proof.
  intros st.
  apply (absent_keys_do_not_raise range_by_key paris_texas_item
           (mk_body "Traveling to Paris, Texas." 4)
           [ {| tokens := seq 0 4 |} ] paris_texas_toks [] _ paris_texas_toks 7 bare_anno st);
    by vm_compute.
Defined.

(** * Further properties *)

(** ** The type table *)

Lemma assoc_elem {V : Type} (k : ustring) (l : list (ustring * V)) (v : V) :
  assoc k l = Some v -> (k, v) ∈ l.
Proof.
  induction l as [|[k' v'] l IH]; cbn [assoc]; [done|].
  case_bool_decide as Hk.
  - intros [= <-]. subst k'. apply list_elem_of_here.
  - intros Hl. apply list_elem_of_further, IH, Hl.
Qed.

Lemma entity_types_get_elem key p :
  entity_types_get key = Some p -> (key, Some p) ∈ entity_types.
Proof.
  unfold entity_types_get. destruct (assoc key entity_types) as [entry|] eqn:Hkey; [|done].
  cbn. intros ->. by apply assoc_elem.
Qed.

(** What holds of every pair in the table, holds of every resolution. *)
Lemma resolve_elem category p :
  resolve category = Some p ->
  (category, Some p) ∈ entity_types
  \/ (entity_types_get category = None
      /\ (first_segment category, Some p) ∈ entity_types).
Proof.
  unfold resolve, resolve_types, first_segment.
  destruct (entity_types_get category) as [[e m]|] eqn:Hfull.
  - intros [= <-]. left. by apply entity_types_get_elem.
  - destruct (entity_types_get (hd [] (split_on 46 category))) as [[e m]|] eqn:Hseg; [|done].
    intros [= <-]. right. split; [done|]. by apply entity_types_get_elem.
Qed.

(** The first part of a split holds no separator, so it is its own first
    part. *)
Lemma split_on_hd_no_sep sep s : sep ∉ hd [] (split_on sep s).
Proof.
  induction s as [|c s IH]; cbn [split_on].
  - apply not_elem_of_nil.
  - destruct (Z.eqb_spec c sep) as [->|Hne]; [apply not_elem_of_nil|].
    destruct (split_on sep s) as [|p ps]; cbn in *.
    + rewrite elem_of_cons, elem_of_nil. intros [?|[]]. congruence.
    + rewrite elem_of_cons. intros [?|?]; [congruence|done].
Qed.

Lemma split_on_no_sep sep s : sep ∉ s -> split_on sep s = [s].
Proof.
  induction s as [|c s IH]; [done|]. rewrite not_elem_of_cons. intros [Hc Hs].
  cbn [split_on]. destruct (Z.eqb_spec c sep) as [->|_]; [done|]. by rewrite IH.
Qed.

Lemma first_segment_idem category :
  first_segment (first_segment category) = first_segment category.
Proof.
  unfold first_segment at 1. rewrite split_on_no_sep; [done|].
  apply split_on_hd_no_sep.
Qed.

(** A property checked on every entry of the table holds of each. *)
Lemma entity_types_check (P : ustring -> option (EntityType * MentionType) -> bool) :
  forallb (fun kv => P (fst kv) (snd kv)) entity_types = true ->
  forall key entry, (key, entry) ∈ entity_types -> P key entry = true.
Proof.
  intros Hall key entry Hin. rewrite forallb_forall in Hall.
  by apply list_elem_of_In, Hall in Hin.
Qed.

Lemma entity_types_kinds key e m :
  (key, Some (e, m)) ∈ entity_types -> e ∈ kinds_of_segment (first_segment key).
Proof.
  intros Hin.
  apply (entity_types_check
           (fun key entry => match entry with
                             | Some (e, _) =>
                                 bool_decide (e ∈ kinds_of_segment (first_segment key))
                             | None => true
                             end)) in Hin; [|by vm_compute].
  by apply bool_decide_eq_true in Hin.
Qed.

(** X1. No resolution has the mention kind [PRO]: the table holds names and
    nominals only, so the tagger never marks a token as a pronoun. *)
Theorem resolve_never_PRO category e m :
  resolve category = Some (e, m) -> m <> PRO.
Proof.
  assert (Forall (fun kv => forall e m, snd kv = Some (e, m) -> m <> PRO) entity_types)
    as Htable.
  { unfold entity_types. repeat constructor; cbn; intros ? ? [= <- <-]; done. }
  rewrite Forall_forall in Htable.
  intros [Hin|[_ Hin]]%resolve_elem; by apply (Htable _ Hin e m).
Qed.

(** X2. The entity kind of a resolution is fixed by the top-level category:
    [EVENT] under ['Action'], [LOC] or [FAC] under ['Geo'], [ORG] under
    ['Organization'], [PER] under ['Person']; a category under any other top
    level resolves to nothing. *)
Theorem resolve_kind_by_first_segment category e m :
  resolve category = Some (e, m) -> e ∈ kinds_of_segment (first_segment category).
Proof.
  intros [Hin|[_ Hin]]%resolve_elem.
  - by apply (entity_types_kinds _ _ m).
  - rewrite <- first_segment_idem. by apply (entity_types_kinds _ _ m).
Qed.

(** X3. Whatever follows them, the top-level categories ['Person'],
    ['Organization'] and ['Action'] resolve: every category under ['Person']
    to the entity kind [PER] (also the sub-categories the table maps to
    [None]), every category under ['Organization'] to ([ORG], [NAME]), and
    every category under ['Action'] to ([EVENT], [NOM]). *)
Theorem resolve_under_top_level category :
  (first_segment category = u "Person" -> exists m, resolve category = Some (PER, m))
  /\ (first_segment category = u "Organization" -> resolve category = Some (ORG, NAME))
  /\ (first_segment category = u "Action" -> resolve category = Some (EVENT, NOM)).
Proof.
  assert (forall e m, entity_types_get category = Some (e, m) ->
            (first_segment category = u "Person" -> e = PER)
            /\ (first_segment category = u "Organization" -> (e, m) = (ORG, NAME))
            /\ (first_segment category = u "Action" -> (e, m) = (EVENT, NOM))) as Hfull.
  { intros e m Hin%entity_types_get_elem.
    apply (entity_types_check
             (fun key entry =>
                match entry with
                | Some (e, m) =>
                    (if bool_decide (first_segment key = u "Person")
                     then bool_decide (e = PER) else true)
                    && (if bool_decide (first_segment key = u "Organization")
                        then bool_decide ((e, m) = (ORG, NAME)) else true)
                    && (if bool_decide (first_segment key = u "Action")
                        then bool_decide ((e, m) = (EVENT, NOM)) else true)
                | None => true
                end)) in Hin; [|by vm_compute].
    apply andb_true_iff in Hin as [[H1 H2]%andb_true_iff H3].
    repeat split; intros Hseg.
    - rewrite bool_decide_eq_true_2 in H1 by done. by apply bool_decide_eq_true in H1.
    - rewrite bool_decide_eq_true_2 in H2 by done. by apply bool_decide_eq_true in H2.
    - rewrite bool_decide_eq_true_2 in H3 by done. by apply bool_decide_eq_true in H3. }
  unfold resolve, resolve_types. fold (first_segment category).
  destruct (entity_types_get category) as [[e m]|] eqn:Hget.
  - destruct (Hfull e m eq_refl) as (HP & HO & HA). repeat split; intros Hseg.
    + rewrite (HP Hseg). by exists m.
    + by rewrite (HO Hseg).
    + by rewrite (HA Hseg).
  - repeat split; intros ->; [by exists NAME|done|done].
Qed.

(** X4. Of the categories listed in [entity_hierarchy], exactly those under
    ['Action'], ['Geo'], ['Organization'] and ['Person'] resolve to a pair:
    every ['Geo'] category of the list has an entry of its own in
    [entity_types], and nothing under ['Attribute'], ['Idea'],
    ['Information'], ['Object'], ['Substance'] or ['Time'] is ever tagged. *)
Theorem hierarchy_resolution category :
  category ∈ entity_hierarchy ->
  (is_Some (resolve category)
   <-> first_segment category ∈ [u "Action"; u "Geo"; u "Organization"; u "Person"]).
Proof.
  intros Hin.
  assert (forallb (fun c => Bool.eqb
                     (match resolve c with Some _ => true | None => false end)
                     (bool_decide (first_segment c
                                   ∈ [u "Action"; u "Geo"; u "Organization"; u "Person"])))
            entity_hierarchy = true) as Hall by (by vm_compute).
  rewrite forallb_forall in Hall. apply list_elem_of_In, Hall, Bool.eqb_prop in Hin.
  destruct (resolve category) as [p|].
  - symmetry in Hin. apply bool_decide_eq_true in Hin. split; [done|by eexists].
  - symmetry in Hin. apply bool_decide_eq_false in Hin. split; [by intros [? ?]|done].
Qed.

Lemma hierarchy_resolution_witness :
  u "Geo.featureType.Undersea" ∈ entity_hierarchy
  /\ (is_Some (resolve (u "Geo.featureType.Undersea"))
      <-> first_segment (u "Geo.featureType.Undersea")
          ∈ [u "Action"; u "Geo"; u "Organization"; u "Person"]).
Proof.
  assert (u "Geo.featureType.Undersea" ∈ entity_hierarchy) as Hin
    by (apply list_elem_of_In; vm_compute; tauto).
  split; [done|]. by apply hierarchy_resolution.
Defined.

Lemma resolve_never_PRO_witness :
  resolve (u "Person.name.title.militaryTitle") = Some (PER, NOM) /\ NOM <> PRO.
Proof.
  assert (resolve (u "Person.name.title.militaryTitle") = Some (PER, NOM)) as Hres
    by (by vm_compute).
  split; [done|]. by apply (resolve_never_PRO _ _ _ Hres).
Defined.

Lemma resolve_kind_by_first_segment_witness :
  resolve (u "Geo.featureType.SpotFeature") = Some (FAC, NAME)
  /\ FAC ∈ kinds_of_segment (first_segment (u "Geo.featureType.SpotFeature")).
Proof.
  assert (resolve (u "Geo.featureType.SpotFeature") = Some (FAC, NAME)) as Hres
    by (by vm_compute).
  split; [done|]. by apply (resolve_kind_by_first_segment _ _ _ Hres).
Defined.

(** ** The alignment loop *)

Section FurtherFacts.

Variable find_range : SortedCollection -> json -> json -> list addr.

Lemma annotates_is_entity toks anno a :
  annotates find_range toks anno a = true -> anno_is_entity anno = true.
Proof. unfold annotates. by intros [? _]%andb_true_iff. Qed.

Lemma mention_at_S annos j anno :
  annos !! j = Some anno ->
  mention_at annos (S j) = mention_at annos j + (if anno_is_entity anno then 1 else 0).
Proof.
  intros Hj. unfold mention_at. rewrite (take_S_r _ _ _ Hj), filter_app, length_app.
  rewrite filter_cons, filter_nil. destruct (anno_is_entity anno); cbn.
  - case_decide; [|done]. cbn. lia.
  - case_decide; [done|]. cbn. lia.
Qed.

Lemma mention_at_mono annos j j' :
  (j <= j')%nat -> mention_at annos j <= mention_at annos j'.
Proof.
  intros Hle. unfold mention_at.
  replace j' with (j + (j' - j))%nat by lia.
  rewrite <- take_take_drop, filter_app, length_app. lia.
Qed.

(** The counter has moved on when a later record is reached. *)
Lemma mention_at_lt annos j j' anno :
  (j < j')%nat -> annos !! j = Some anno -> anno_is_entity anno = true ->
  mention_at annos j < mention_at annos j'.
Proof.
  intros Hlt Hj Hent.
  pose proof (mention_at_mono annos (S j) j' ltac:(lia)) as Hmono.
  rewrite (mention_at_S _ _ _ Hj), Hent in Hmono. lia.
Qed.

(** A token carries what the last record that selects it wrote. *)
Lemma anno_loop_last_write text toks annos mention st st' mention' a j :
  anno_loop find_range text toks annos mention st = (st', Ok mention') ->
  last_writer find_range toks annos j a ->
  exists anno e m,
    annos !! j = Some anno /\ anno_entity anno = Some (e, m) /\
    heap st' !! a = set_annotation e m (mention + mention_at annos j) <$> heap st !! a.
Proof.
  revert mention st j; induction annos as [|anno0 annos IH];
    intros mention st j Hrun (anno & Hj & Hyes & Hlater); [done|].
  rewrite anno_loop_cons in Hrun.
  destruct (anno_step_facts find_range text toks mention anno0 st st) as (_ & Hh & Hm).
  destruct (anno_step find_range text toks mention anno0 st) as [st1 r1].
  cbn in Hh, Hm. destruct r1 as [mention1|]; [|done].
  specialize (Hm _ eq_refl).
  destruct j as [|j]; cbn in Hj.
  - injection Hj as ->.
    destruct (annotates_entity find_range _ _ _ Hyes) as [[e m] He].
    exists anno, e, m. split; [done|]. split; [done|].
    assert (heap st' !! a = heap st1 !! a) as ->.
    { replace st' with (fst (anno_loop find_range text toks annos mention1 st1))
        by (by rewrite Hrun).
      apply anno_loop_untouched. intros anno' [j' Hj']%list_elem_of_lookup.
      apply (Hlater (S j') anno'); [lia|done]. }
    rewrite Hh, step_heap_lookup, He, Hyes.
    unfold mention_at; cbn. by rewrite Z.add_0_r.
  - destruct (IH mention1 st1 j Hrun) as (anno' & e & m & Hj' & He & Hfinal).
    { exists anno. split; [done|]. split; [done|].
      intros j' anno' Hlt Hj'. apply (Hlater (S j') anno'); [lia|done]. }
    exists anno', e, m. split; [done|]. split; [done|].
    rewrite Hfinal, Hh, step_heap_lookup.
    replace (mention1 + mention_at annos j) with (mention + mention_at (anno0 :: annos) (S j)).
    2:{ rewrite Hm. unfold mention_at. cbn [take]. rewrite filter_cons.
        destruct (anno_is_entity anno0); cbn.
        - case_decide; [|done]. cbn. lia.
        - case_decide; [done|]. lia. }
    destruct (anno_entity anno0) as [[e0 m0]|]; [|done].
    destruct (annotates find_range toks anno0 a); [|done].
    by destruct (heap st !! a).
Qed.

(** X5. Overlap is resolved by order: when the call ends normally, a token
    that several records select carries the entity kind and mention kind of
    the category of the last such record in the list, and that record's
    value of the counter as mention id and equivalence id; what earlier
    records wrote to it is gone. *)
Theorem annotate_sentences_last_writer si result st a j :
  snd (annotate_sentences find_range si result st) = Ok None ->
  last_writer find_range (collection si (heap st)) (annotations result) j a ->
  exists anno h e m,
    annotations result !! j = Some anno
    /\ anno_category anno = Some h /\ resolve h = Some (e, m)
    /\ annotation <$> heap (fst (annotate_sentences find_range si result st)) !! a
       = (fun _ => (Some e, Some m, Some (mention_at (annotations result) j),
                    Some (mention_at (annotations result) j))) <$> heap st !! a.
Proof.
  intros Hok Hlast.
  rewrite annotate_sentences_eq in Hok |- *. cbn zeta in Hok |- *.
  destruct (prelude si result (heap st)) as [[[text toks] annos]|] eqn:Hpre; [|done].
  apply prelude_Ok in Hpre as [-> ->].
  destruct (anno_loop find_range text (collection si (heap st))
              (annotations result) 0 _) as [st' [m'|]] eqn:Hrun; [|done].
  destruct (anno_loop_last_write _ _ _ _ _ _ _ a j Hrun Hlast)
    as (anno & e & m & Hj & He & Hfinal).
  apply anno_entity_resolve in He as (h & m0 & Hcat & -> & Hres).
  exists anno, h, e, m0. repeat (split; [done|]).
  cbn [fst]. rewrite Hfinal. cbn [heap]. rewrite Z.add_0_l.
  by destruct (heap st !! a).
Qed.

(** X6. Mention ids tell the records apart: when the call ends normally, two
    tokens of the store carry the same mention id exactly when the same
    record was the last to write to both. *)
Theorem annotate_sentences_mention_ids si result st a a' j j' :
  snd (annotate_sentences find_range si result st) = Ok None ->
  last_writer find_range (collection si (heap st)) (annotations result) j a ->
  last_writer find_range (collection si (heap st)) (annotations result) j' a' ->
  is_Some (heap st !! a) -> is_Some (heap st !! a') ->
  (mention_id <$> heap (fst (annotate_sentences find_range si result st)) !! a
   = mention_id <$> heap (fst (annotate_sentences find_range si result st)) !! a'
   <-> j = j').
Proof.
  intros Hok Hlast Hlast' [tok Ha] [tok' Ha'].
  rewrite annotate_sentences_eq in Hok |- *. cbn zeta in Hok |- *.
  destruct (prelude si result (heap st)) as [[[text toks] annos]|] eqn:Hpre; [|done].
  apply prelude_Ok in Hpre as [-> ->].
  destruct (anno_loop find_range text (collection si (heap st))
              (annotations result) 0 _) as [st' [m'|]] eqn:Hrun; [|done].
  destruct (anno_loop_last_write _ _ _ _ _ _ _ a j Hrun Hlast)
    as (anno & e & m & Hj & _ & Hfinal).
  destruct (anno_loop_last_write _ _ _ _ _ _ _ a' j' Hrun Hlast')
    as (anno' & e' & m0 & Hj' & _ & Hfinal').
  cbn [fst]. rewrite Hfinal, Hfinal'. cbn [heap]. rewrite Ha, Ha'. cbn.
  destruct Hlast as (anno1 & Hj1 & Hyes & _). destruct Hlast' as (anno1' & Hj1' & Hyes' & _).
  assert (anno1 = anno) as -> by congruence. assert (anno1' = anno') as -> by congruence.
  apply annotates_is_entity in Hyes, Hyes'.
  split.
  - intros [= Heq]. destruct (Nat.lt_trichotomy j j') as [Hlt|[->|Hlt]]; [|done|].
    + pose proof (mention_at_lt _ _ _ _ Hlt Hj Hyes). lia.
    + pose proof (mention_at_lt _ _ _ _ Hlt Hj' Hyes'). lia.
  - by intros ->.
Qed.

(** X7. A record that raises is not applied in part, and stops the call
    where it stands: the step of a record that ends in an exception leaves
    every token as it was; the records before it stay applied, and the
    records after it are not processed. *)
Theorem anno_loop_raise_at text toks pre anno post mention st st1 mention1 st2 e :
  anno_loop find_range text toks pre mention st = (st1, Ok mention1) ->
  anno_step find_range text toks mention1 anno st1 = (st2, Raise e) ->
  anno_loop find_range text toks (pre ++ anno :: post) mention st = (st2, Raise e)
  /\ heap st2 = heap st1.
Proof.
  intros Hpre Hstep. split.
  - by rewrite anno_loop_app, Hpre, anno_loop_cons, Hstep.
  - destruct (anno_step_facts find_range text toks mention1 anno st1 st1) as (_ & Hh & _).
    by rewrite Hstep in Hh.
Qed.


(** X9. A result that is no object, or whose ['annoList'] is [null], a
    boolean or a number, ends the call in an exception ([AttributeError]
    for the first, [TypeError] for the second) after the collection has been
    built: no token is written. *)
Theorem annotate_sentences_malformed_result si c sents toks result st :
  body si = Some c ->
  sentences c !! "nltk_tokenizer"%string = Some (Some sents) ->
  keys_of (heap st) (chain sents) = Ok toks ->
  malformed_result result = true ->
  annotate_sentences find_range si result st
  = ({| heap := heap st; log := log st ++ [(INFO, [result])] |},
     Raise (match result with JObj _ => TypeError | _ => AttributeError end)).
Proof.
  intros Hbody Hsents Hkeys Hbad.
  rewrite annotate_sentences_eq. unfold prelude. rewrite Hbody, Hsents, Hkeys.
  destruct result as [| | | | | |fields]; try done.
  cbn [py_get malformed_result] in *.
  by destruct (assoc (u "annoList") fields) as [[| | | | | |]|].
Qed.

Lemma keys_of_cons h a items :
  keys_of h (a :: items) =
  match h !! a with
  | None => Raise InvalidAddress
  | Some tok =>
      match token_key tok with
      | Raise e => Raise e
      | Ok k =>
          match keys_of h items with
          | Ok rest => Ok ((k, a) :: rest)
          | Raise e => Raise e
          end
      end
  end.
Proof.
  unfold keys_of at 1. cbn [keyed]. rewrite bind_run. unfold read_token. cbn [heap].
  destruct (h !! a) as [tok|]; [|done].
  rewrite bind_lift. destruct (token_key tok) as [k|]; [|done].
  rewrite bind_run, keyed_run. cbn [heap].
  by destruct (keys_of h items).
Qed.

Lemma keys_of_items h items toks :
  keys_of h items = Ok toks -> toks.*2 = items.
Proof.
  revert toks; induction items as [|a items IH]; intros toks.
  - by intros [= <-].
  - rewrite keys_of_cons. destruct (h !! a) as [tok|]; [|done].
    destruct (token_key tok) as [k|]; [|done].
    destruct (keys_of h items) as [rest|]; [|done].
    intros [= <-]. cbn. f_equal. by apply IH.
Qed.

Lemma keys_of_missing_offset h items a tok :
  Forall (fun x => is_Some (h !! x)) items ->
  a ∈ items -> h !! a = Some tok ->
  list_find (fun p => fst p = BYTES) (offsets tok) = None ->
  keys_of h items = Raise (KeyError (JInt (OffsetType_value BYTES))).
Proof.
  intros Hvalid Hin Ha Hnone. induction items as [|x items IH]; [by apply elem_of_nil in Hin|].
  apply Forall_cons in Hvalid as [[tokx Hx] Hvalid].
  rewrite keys_of_cons, Hx. unfold token_key at 1.
  destruct (list_find (fun p => fst p = BYTES) (offsets tokx)) as [[i [ty off]]|] eqn:Hfind;
    [|done].
  apply elem_of_cons in Hin as [->|Hin]; [congruence|].
  by rewrite IH.
Qed.

(** X10. The collection needs a byte offset on every token: when a token of
    the tokenized sentences has no [BYTES] entry among its offsets (the
    sentences naming stored tokens only), the call ends in [KeyError] while
    the collection is built, whatever the result holds: no record is looked
    at and no token is written. *)
Theorem annotate_sentences_missing_offset si c sents a tok result st :
  body si = Some c ->
  sentences c !! "nltk_tokenizer"%string = Some (Some sents) ->
  Forall (fun x => is_Some (heap st !! x)) (chain sents) ->
  a ∈ chain sents -> heap st !! a = Some tok ->
  list_find (fun p => fst p = BYTES) (offsets tok) = None ->
  annotate_sentences find_range si result st
  = ({| heap := heap st; log := log st ++ [(INFO, [result])] |},
     Raise (KeyError (JInt (OffsetType_value BYTES)))).
Proof.
  intros Hbody Hsents Hvalid Hin Ha Hnone.
  rewrite annotate_sentences_eq. unfold prelude. rewrite Hbody, Hsents.
  by rewrite (keys_of_missing_offset _ _ a tok Hvalid Hin Ha Hnone).
Qed.

(** X11. With a range query that returns items of the collection it is asked
    over, the call writes to tokens of the tokenized sentences only: every
    other token of the store is after the call what it was before. *)
Theorem annotate_sentences_only_sentence_tokens si c sents result st a :
  (forall toks start end_ x, x ∈ find_range toks start end_ -> x ∈ toks.*2) ->
  body si = Some c ->
  sentences c !! "nltk_tokenizer"%string = Some (Some sents) ->
  a ∉ chain sents ->
  heap (fst (annotate_sentences find_range si result st)) !! a = heap st !! a.
Proof.
  intros Hitems Hbody Hsents Hout.
  rewrite annotate_sentences_heap.
  destruct (prelude si result (heap st)) as [[[text toks] annos]|] eqn:Hpre; [|done].
  assert (toks.*2 = chain sents) as Htoks.
  { unfold prelude in Hpre. rewrite Hbody, Hsents in Hpre.
    destruct (keys_of (heap st) (chain sents)) as [toks'|] eqn:Hkeys; [|done].
    apply keys_of_items in Hkeys.
    destruct (py_get result (u "annoList") (JArr [])) as [al|]; [|done].
    destruct (py_iter al); [|done]. by injection Hpre as _ <- _. }
  rewrite anno_loop_untouched; [done|].
  intros anno _. unfold annotates.
  destruct (anno_is_entity anno); [|done]. cbn [andb].
  destruct (anno_range anno) as [[start end_]|]; [|done].
  destruct (anno_entity anno); [|done].
  apply bool_decide_eq_false. intros Hx%Hitems. by rewrite Htoks in Hx.
Qed.

End FurtherFacts.

(** ** The stage *)

Section StageFacts.

Variable find_range : SortedCollection -> json -> json -> list addr.
Variable remote : bytes -> outcome json.
Variable now : Z.

Lemma annotate_sentences_identity si result st :
  identity <$> heap (fst (annotate_sentences find_range si result st))
  = identity <$> heap st.
Proof.
  rewrite annotate_sentences_heap.
  destruct (prelude si result (heap st)) as [[[text toks] annos]|]; [|done].
  by rewrite anno_loop_identity.
Qed.

(** X12. [process_item] touches nothing but its own entries: however the call
    ends, the clean visible text of the stream item, the entries of its
    taggings and sentences maps under every key other than ['opensextant'],
    and the text and offsets of every token are after the call what they
    were before; and on a stream item without a body, or whose clean visible
    text is missing or empty, the call changes nothing at all, logs nothing
    and ends normally, without a request. *)
Theorem process_item_frame si st key :
  let run := process_item find_range remote now si st in
  clean_visible <$> body (fst (fst run)) = clean_visible <$> body si
  /\ (key <> the_tagger_id ->
      (body (fst (fst run)) ≫= fun c => taggings c !! key)
      = (body si ≫= fun c => taggings c !! key)
      /\ (body (fst (fst run)) ≫= fun c => sentences c !! key)
         = (body si ≫= fun c => sentences c !! key))
  /\ identity <$> heap (snd (fst run)) = identity <$> heap st
  /\ (match body si with Some c => has_text c = false | None => True end ->
      run = (si, st, Ok tt)).
Proof.
  unfold process_item. destruct si as [[c|]]; cbn [body]; [|done].
  destruct (has_text c) eqn:Htext; [|done].
  destruct (remote _) as [result|]; [|done].
  match goal with
  | |- context [annotate_sentences find_range ?si' result ?st'] =>
      pose proof (annotate_sentences_identity si' result st') as Hid;
      destruct (annotate_sentences find_range si' result st') as [st2 [v|e]]
  end; cbn in Hid |- *.
  - repeat split; try done.
    + by rewrite lookup_insert_ne.
    + by rewrite lookup_insert_ne.
  - repeat split; try done. by rewrite lookup_insert_ne.
Qed.

(** X13. A call that fails leaves no sentences entry, but may leave a
    tagging: when the remote call (or the parsing of its answer) raises, the
    stream item and the tokens are as they were; when the alignment raises
    after the remote call has answered, the taggings map already holds the
    ['opensextant'] tagging made from the answer, and the sentences map is
    as it was. *)
Theorem process_item_failure si c st si' st' e :
  body si = Some c ->
  has_text c = true ->
  process_item find_range remote now si st = (si', st', Raise e) ->
  exists c',
    body si' = Some c' /\ sentences c' = sentences c
    /\ ((remote (default [] (clean_visible c)) = Raise e
         /\ c' = c /\ heap st' = heap st)
        \/ exists result,
             remote (default [] (clean_visible c)) = Ok result
             /\ taggings c' = <[the_tagger_id := make_tagging now result]> (taggings c)).
Proof.
  unfold process_item. intros Hbody Htext. rewrite Hbody, Htext.
  destruct (remote _) as [result|e'].
  - destruct (annotate_sentences find_range _ result _) as [st2 [v|e']]; [done|].
    intros [= <- <- <-]. eexists. split; [done|]. split; [done|]. right. by exists result.
  - intros [= <- <- <-]. exists c. split; [done|]. split; [done|]. by left.
Qed.

End StageFacts.

(** ** The constructor *)

(** X14. With a user name and a password in the configuration (both true
    values, the three parts of the URL strings and ['verify_ssl'] present),
    [__init__] raises [NameError]: line 125 calls [HTTPBasicAuth], a name
    the module does not import. No tagger with credentials can be built. *)
Theorem init_with_credentials fields scheme address path verify username password :
  assoc (u "scheme") fields = Some (JStr scheme) ->
  assoc (u "network_address") fields = Some (JStr address) ->
  assoc (u "service_path") fields = Some (JStr path) ->
  assoc (u "verify_ssl") fields = Some verify ->
  assoc (u "username") fields = Some username ->
  assoc (u "password") fields = Some password ->
  truthy username = true ->
  truthy password = true ->
  init (JObj fields) = NameError "HTTPBasicAuth".
Proof.
  intros Hs Ha Hp Hv Hu Hw Htu Htw. unfold init, py_getitem, py_get.
  rewrite Hs, Ha, Hp, Hv, Hu, Hw. cbn. by rewrite Htu, Htw.
Qed.

(** X15. A tagger that [__init__] has built has no credentials on its session,
    and comes from a configuration that holds the four required keys, with
    strings for the three parts of the URL: its [rest_url] is scheme,
    ['://'], network address and service path joined, and its [verify_ssl]
    the configured value. *)
Theorem init_built config t :
  init config = Built t ->
  session_auth t = None
  /\ exists fields scheme address path,
       config = JObj fields
       /\ assoc (u "scheme") fields = Some (JStr scheme)
       /\ assoc (u "network_address") fields = Some (JStr address)
       /\ assoc (u "service_path") fields = Some (JStr path)
       /\ assoc (u "verify_ssl") fields = Some (verify_ssl t)
       /\ rest_url t = scheme ++ u "://" ++ address ++ path.
Proof.
  unfold init. destruct config as [| | | | | |fields]; try done.
  unfold py_getitem, py_get.
  destruct (assoc (u "scheme") fields) as [[| | | |scheme| |]|] eqn:Hs; try done.
  cbn [py_concat].
  destruct (assoc (u "network_address") fields) as [[| | | |address| |]|] eqn:Ha; try done.
  cbn [py_concat].
  destruct (assoc (u "service_path") fields) as [[| | | |path| |]|] eqn:Hp; try done.
  cbn [py_concat].
  destruct (assoc (u "verify_ssl") fields) as [verify|] eqn:Hv; [|done].
  destruct (truthy _ && truthy _); [done|].
  intros [= <-]. split; [done|]. exists fields, scheme, address, path.
  repeat split; try done. cbn [rest_url]. by rewrite <- !app_assoc.
Qed.

(** ** The further properties at the test documents *)

Lemma insert_by_key_elem x y l : y ∈ insert_by_key x l -> y = x \/ y ∈ l.
Proof.
  induction l as [|z l IH]; cbn [insert_by_key].
  - rewrite elem_of_cons. tauto.
  - destruct (fst x <=? fst z).
    + rewrite elem_of_cons. tauto.
    + rewrite !elem_of_cons. intros [->|Hin]; [tauto|]. apply IH in Hin. tauto.
Qed.

Lemma sort_by_key_elem y l : y ∈ sort_by_key l -> y ∈ l.
Proof.
  unfold sort_by_key. induction l as [|x l IH]; cbn [foldr]; [done|].
  intros [->|Hin]%insert_by_key_elem; [apply list_elem_of_here|].
  apply list_elem_of_further, IH, Hin.
Qed.

(** The range query over the keys returns items of the collection. *)
Lemma range_by_key_items toks start end_ x :
  x ∈ range_by_key toks start end_ -> x ∈ toks.*2.
Proof.
  unfold range_by_key. intros (y & -> & Hy)%list_elem_of_fmap_1.
  apply list_elem_of_fmap_2, sort_by_key_elem.
  by apply (subseteq_drop _ _ _ (subseteq_take _ _ _ Hy)).
Qed.

(** The person record comes last over the token of ['Paris,'] and wins. *)
Lemma annotate_sentences_last_writer_witness :
  let st := mk_state paris_texas_tokens in
  let st' := fst (annotate_sentences range_by_key paris_texas_item overlap_result st) in
  last_writer range_by_key (collection paris_texas_item (heap st))
    (annotations overlap_result) 1 2
  /\ exists anno h e m,
       annotations overlap_result !! 1%nat = Some anno
       /\ anno_category anno = Some h /\ resolve h = Some (e, m)
       /\ annotation <$> heap st' !! 2%nat
          = (fun _ => (Some e, Some m, Some (mention_at (annotations overlap_result) 1),
                       Some (mention_at (annotations overlap_result) 1)))
              <$> heap st !! 2%nat.
Proof.
  intros st st'.
  assert (last_writer range_by_key (collection paris_texas_item (heap st))
            (annotations overlap_result) 1 2) as Hlast.
  { eexists. split; [by vm_compute|]. split; [by vm_compute|].
    intros [|[|j']] anno' Hlt Hj'; [lia|lia|done]. }
  split; [done|].
  apply (annotate_sentences_last_writer range_by_key paris_texas_item overlap_result st 2 1);
    [by vm_compute|done].
Defined.

(** The tokens of ['Paris,'] and ['Texas.'] are written by different
    records and carry different mention ids. *)
Lemma annotate_sentences_mention_ids_witness :
  let st := mk_state paris_texas_tokens in
  let st' := fst (annotate_sentences range_by_key paris_texas_item paris_texas_result st) in
  last_writer range_by_key (collection paris_texas_item (heap st))
    (annotations paris_texas_result) 0 2
  /\ last_writer range_by_key (collection paris_texas_item (heap st))
       (annotations paris_texas_result) 1 3
  /\ (mention_id <$> heap st' !! 2%nat = mention_id <$> heap st' !! 3%nat
      <-> 0%nat = 1%nat).
Proof.
  intros st st'.
  assert (last_writer range_by_key (collection paris_texas_item (heap st))
            (annotations paris_texas_result) 0 2) as Hparis.
  { eexists. split; [by vm_compute|]. split; [by vm_compute|].
    intros [|[|j']] anno' Hlt Hj'; [lia| |done].
    injection Hj' as <-. by vm_compute. }
  assert (last_writer range_by_key (collection paris_texas_item (heap st))
            (annotations paris_texas_result) 1 3) as Htexas.
  { eexists. split; [by vm_compute|]. split; [by vm_compute|].
    intros [|[|j']] anno' Hlt Hj'; [lia|lia|done]. }
  split; [done|]. split; [done|].
  apply (annotate_sentences_mention_ids range_by_key paris_texas_item paris_texas_result
           st 2 3 0 1); try done; by vm_compute.
Defined.

(** The record of ['Paris'] is applied, then a record without ['matchText']
    raises: the token of ['Paris,'] stays tagged, the record of ['Texas']
    is not reached. *)
Lemma anno_loop_raise_at_witness :
  let text := Some (b "Traveling to Paris, Texas.") in
  let st := mk_state paris_texas_tokens in
  let st1 := fst (anno_loop range_by_key text paris_texas_toks [paris_anno] 0 st) in
  let post := [ mk_anno 20 25 "Texas" true "Geo.featureType.PopulatedPlace" ] in
  anno_loop range_by_key text paris_texas_toks ([paris_anno] ++ no_match_text_anno :: post) 0 st
  = (st1, Raise (KeyError (JStr (u "matchText"))))
  /\ map annotation (heap st1)
     = [ (None, None, None, None); (None, None, None, None);
         (Some LOC, Some NAME, Some 0, Some 0); (None, None, None, None) ].
Proof.
  intros text st st1 post.
  destruct (anno_loop_raise_at range_by_key text paris_texas_toks [paris_anno]
              no_match_text_anno post 0 st st1 1 st1 (KeyError (JStr (u "matchText"))))
    as [Hrun _]; [by vm_compute|by vm_compute|].
  split; [done|]. by vm_compute.
Defined.


(** A result that is a list, and a result whose ['annoList'] is [null]. *)
Lemma annotate_sentences_malformed_result_witness :
  let st := mk_state paris_texas_tokens in
  annotate_sentences range_by_key paris_texas_item (JArr [paris_anno]) st
  = ({| heap := heap st; log := [ (INFO, [JArr [paris_anno]]) ] |}, Raise AttributeError)
  /\ annotate_sentences range_by_key paris_texas_item (JObj [(u "annoList", JNull)]) st
     = ({| heap := heap st; log := [ (INFO, [JObj [(u "annoList", JNull)]]) ] |},
        Raise TypeError).
Proof.
  intros st. split.
  - apply (annotate_sentences_malformed_result range_by_key paris_texas_item
             (mk_body "Traveling to Paris, Texas." 4) [ {| tokens := seq 0 4 |} ]
             paris_texas_toks (JArr [paris_anno]) st); by vm_compute.
  - apply (annotate_sentences_malformed_result range_by_key paris_texas_item
             (mk_body "Traveling to Paris, Texas." 4) [ {| tokens := seq 0 4 |} ]
             paris_texas_toks (JObj [(u "annoList", JNull)]) st); by vm_compute.
Defined.

(** The second token of the document has a character offset only. *)
Lemma annotate_sentences_missing_offset_witness :
  let st := mk_state [ mk_token "to" 0 2; chars_only_token ] in
  annotate_sentences range_by_key (mk_item "to Paris" 2) paris_texas_result st
  = ({| heap := heap st; log := [ (INFO, [paris_texas_result]) ] |},
     Raise (KeyError (JInt 1))).
Proof.
  intros st.
  apply (annotate_sentences_missing_offset range_by_key (mk_item "to Paris" 2)
           (mk_body "to Paris" 2) [ {| tokens := seq 0 2 |} ] 1%nat chars_only_token
           paris_texas_result st); try (by vm_compute).
  - repeat constructor; by eexists.
  - apply list_elem_of_In. vm_compute. tauto.
Defined.

(** The store holds a fifth token with the offsets of ['Paris,'] that no
    sentence names: it is not written. *)
Lemma annotate_sentences_only_sentence_tokens_witness :
  let st := mk_state paris_texas_and_one in
  let st' := fst (annotate_sentences range_by_key paris_texas_item paris_texas_result st) in
  (4%nat ∉ chain [ {| tokens := seq 0 4 |} ])
  /\ heap st' !! 4%nat = Some (mk_token "Paris," 13 6)
  /\ annotation <$> heap st' !! 2%nat = Some (Some LOC, Some NAME, Some 0, Some 0).
Proof.
  intros st st'.
  assert (4%nat ∉ chain [ {| tokens := seq 0 4 |} ]) as Hout.
  { intros Hin%list_elem_of_In. vm_compute in Hin. intuition lia. }
  split; [done|]. split; [|by vm_compute].
  transitivity (heap st !! 4%nat); [|by vm_compute].
  apply (annotate_sentences_only_sentence_tokens range_by_key paris_texas_item
           (mk_body "Traveling to Paris, Texas." 4) [ {| tokens := seq 0 4 |} ]
           paris_texas_result st 4 range_by_key_items eq_refl); [by vm_compute|done].
Defined.

(** The first test document with the ['start'] of its first record removed:
    the call fails with the tagging in place and no sentences entry. *)
Lemma process_item_failure_witness :
  let run := process_item range_by_key (fun _ => Ok no_start_result) 0
               paris_texas_item (mk_state paris_texas_tokens) in
  snd run = Raise (KeyError (JStr (u "start")))
  /\ exists c',
       body (fst (fst run)) = Some c'
       /\ sentences c' = sentences (mk_body "Traveling to Paris, Texas." 4)
       /\ taggings c' !! the_tagger_id
          = Some {| tagger_id := "opensextant"; tagger_version := "2.1";
                    generation_time := 0 |}.
Proof.
  intros run.
  assert (snd run = Raise (KeyError (JStr (u "start")))) as Hr by (by vm_compute).
  split; [done|].
  destruct run as [[si' st'] r] eqn:Hrun. cbn in Hr. subst r.
  destruct (process_item_failure range_by_key (fun _ => Ok no_start_result) 0
              paris_texas_item (mk_body "Traveling to Paris, Texas." 4)
              (mk_state paris_texas_tokens) si' st' _ eq_refl eq_refl Hrun)
    as (c' & Hbody & Hsents & [[Hfail _]|(result & Hres & Htag)]); [done|].
  injection Hres as <-.
  exists c'. split; [done|]. split; [done|]. rewrite Htag. by rewrite lookup_insert_eq.
Defined.

(** A configuration with a user name and a password. *)
Lemma init_with_credentials_witness :
  init credentials_config = NameError "HTTPBasicAuth".
Proof.
  apply (init_with_credentials _ (u "https") (u "localhost:8182")
           (u "/opensextant/extract/general/json") (JBool false)
           (JStr (u "alice")) (JStr (u "secret"))); by vm_compute.
Defined.

(** The default configuration builds the tagger of the docstring: its URL is
    [http://localhost:8182/opensextant/extract/general/json]. *)
Lemma init_built_witness :
  init default_config
  = Built {| rest_url := u "http://localhost:8182/opensextant/extract/general/json";
             verify_ssl := JBool false;
             session_auth := None;
             session_cert := None |}
  /\ exists fields scheme address path,
       default_config = JObj fields
       /\ assoc (u "scheme") fields = Some (JStr scheme)
       /\ assoc (u "network_address") fields = Some (JStr address)
       /\ assoc (u "service_path") fields = Some (JStr path)
       /\ assoc (u "verify_ssl") fields = Some (JBool false)
       /\ u "http://localhost:8182/opensextant/extract/general/json"
          = scheme ++ u "://" ++ address ++ path.
Proof.
  assert (init default_config
          = Built {| rest_url := u "http://localhost:8182/opensextant/extract/general/json";
                     verify_ssl := JBool false;
                     session_auth := None;
                     session_cert := None |}) as Hinit by (by vm_compute).
  split; [done|]. by destruct (init_built _ _ Hinit) as [_ H].
Defined.

(** One category under each of the three top levels: ['Person.bodyPart'],
    which the table maps to [None], and two that it does not list. *)
Lemma resolve_under_top_level_witness :
  (first_segment (u "Person.bodyPart") = u "Person"
   /\ exists m, resolve (u "Person.bodyPart") = Some (PER, m))
  /\ (first_segment (u "Organization.unlisted") = u "Organization"
      /\ resolve (u "Organization.unlisted") = Some (ORG, NAME))
  /\ (first_segment (u "Action.unlisted") = u "Action"
      /\ resolve (u "Action.unlisted") = Some (EVENT, NOM)).
Proof.
  assert (first_segment (u "Person.bodyPart") = u "Person") as HP by (by vm_compute).
  assert (first_segment (u "Organization.unlisted") = u "Organization") as HO
    by (by vm_compute).
  assert (first_segment (u "Action.unlisted") = u "Action") as HA by (by vm_compute).
  split; [|split].
  - split; [done|]. by apply (resolve_under_top_level (u "Person.bodyPart")).
  - split; [done|]. by apply (resolve_under_top_level (u "Organization.unlisted")).
  - split; [done|]. by apply (resolve_under_top_level (u "Action.unlisted")).
Defined.
